(** * The executor: container store, run supervisor and step tree

    A shallow embedding of the parts of the executor that the lifecycle
    properties talk about:

    - [Executor]: the shared vocabulary (errors, container records, events);
    - [GardenStore]: [depot/gardenstore/garden_store.go], the runtime-backed
      container store together with the supervisor loop of [runStepProcess];
    - [Steps]: the step interface, the download step, the periodic and the
      long-running monitor steps, and the serial and parallel combinators;
    - [AllocationStore]: the store of reserved and initializing containers.

    Goroutines are embedded by making the scheduler's choices an explicit
    argument: a [select] loop consumes the list of receives it performs, a
    blocking receive is an [option] that is [None] while nothing has arrived. *)

From Stdlib Require Import ZArith Lia Ascii.
From stdpp Require Import base option list gmap strings.

#[local] Set Warnings "-register-all".
Local Open Scope string_scope.
Local Open Scope list_scope.

(** ** Shared vocabulary of the [executor] package *)

Module Executor.

(** Go's [error] values that the modelled code creates or inspects.  [None]
    of type [option error] is Go's [nil]. *)
Inductive error : Type :=
| ErrContainerNotFound
| ErrInvalidTransition
| ErrCancelled
| CancelError
| ErrAlreadyExists
| ErrInsufficientCapacity
| GardenContainerNotFoundError (handle : string)
| ErrorString (msg : string)
| InvalidInterval (field : string) (interval : Z)
| EmittableError (wrapped : option error) (msg : string) (detail : string).

Inductive State : Type :=
| StateReserved
| StateInitializing
| StateCreated
| StateRunning
| StateCompleted.

Global Instance State_eq_dec : EqDecision State.
Proof. solve_decision. Defined.

Record ContainerRunResult : Type := {
  Failed : bool;
  FailureReason : string
}.

(** The zero value [executor.ContainerRunResult{}]. *)
Definition zeroRunResult : ContainerRunResult :=
  {| Failed := false; FailureReason := "" |}.

(** [models.Action] is declared outside the store; the store only compares
    an action against [nil] and hands it to the transformer. *)
Definition Action : Type := string.

Record Container : Type := {
  Guid : string;
  MemoryMB : Z;
  DiskMB : Z;
  AllocatedAt : Z;
  CState : State;
  Setup : option Action;
  MainAction : Action;
  Monitor : option Action;
  StartTimeout : Z;
  RunResult : ContainerRunResult
}.

Inductive Event : Type :=
| ContainerRunningEvent (c : Container)
| ContainerCompleteEvent (c : Container).

End Executor.

Export Executor.

(** ** [depot/gardenstore/garden_store.go] *)

Module GardenStore.

(** The step tree that [Run] assembles.  Leaves are what the transformer
    returns for an action; the monitor keeps the durations it was built
    with. *)
Inductive StepTree : Type :=
| StepFor (a : Action)
| NewMonitor (check : Action) (startTimeout healthyInterval unhealthyInterval : Z)
| NewCodependent (children : list StepTree)
| NewSerial (children : list StepTree).

(** The local variables of the closure in [runStepProcess]. *)
Record LoopState : Type := {
  signalsNil : bool;             (* signals = nil *)
  hasStartedRunningNil : bool;   (* hasStartedRunning = nil *)
  toldToStop : bool;
  result : ContainerRunResult;
  cancelCalls : nat              (* calls of step.Cancel() *)
}.

Definition initialLoopState : LoopState :=
  {| signalsNil := false; hasStartedRunningNil := false; toldToStop := false;
     result := zeroRunResult; cancelCalls := 0 |}.

(** An [ifrit.Process]: the goroutine started by [ifrit.Invoke] for one
    container, with the variables its closure holds. *)
Record Process : Type := {
  p_guid : string;
  p_step : StepTree;
  p_hasStartedRunning : nat;   (* tokens put in the channel by Run *)
  p_loop : LoopState;
  p_signalled : bool;          (* os.Interrupt was delivered by Signal *)
  p_exited : bool              (* the channel returned by Wait is closed *)
}.

(** The store, the garden server behind [gardenClient] and the event
    emitter.  Failures of garden calls are part of the world, keyed the way
    a fake client stubs them. *)
Record World : Type := {
  garden : gmap string (gmap string string);         (* handle -> properties *)
  lookupFault : gmap string error;
  setPropertyFault : gmap (string * string) error;   (* (handle, key) *)
  destroyFault : gmap string error;
  emitted : list Event;
  procs : list Process;                               (* pid = position *)
  runningProcesses : gmap string nat
}.

Definition with_garden (g : gmap string (gmap string string)) (w : World) : World :=
  {| garden := g; lookupFault := lookupFault w;
     setPropertyFault := setPropertyFault w; destroyFault := destroyFault w;
     emitted := emitted w; procs := procs w;
     runningProcesses := runningProcesses w |}.

Definition with_emitted (evs : list Event) (w : World) : World :=
  {| garden := garden w; lookupFault := lookupFault w;
     setPropertyFault := setPropertyFault w; destroyFault := destroyFault w;
     emitted := evs; procs := procs w;
     runningProcesses := runningProcesses w |}.

Definition with_procs (ps : list Process) (w : World) : World :=
  {| garden := garden w; lookupFault := lookupFault w;
     setPropertyFault := setPropertyFault w; destroyFault := destroyFault w;
     emitted := emitted w; procs := ps;
     runningProcesses := runningProcesses w |}.

Definition with_runningProcesses (m : gmap string nat) (w : World) : World :=
  {| garden := garden w; lookupFault := lookupFault w;
     setPropertyFault := setPropertyFault w; destroyFault := destroyFault w;
     emitted := emitted w; procs := procs w;
     runningProcesses := m |}.

Definition signal_process (p : Process) : Process :=
  {| p_guid := p_guid p; p_step := p_step p;
     p_hasStartedRunning := p_hasStartedRunning p; p_loop := p_loop p;
     p_signalled := true; p_exited := p_exited p |}.

Definition exit_process (p : Process) : Process :=
  {| p_guid := p_guid p; p_step := p_step p;
     p_hasStartedRunning := p_hasStartedRunning p; p_loop := p_loop p;
     p_signalled := p_signalled p; p_exited := true |}.

Definition set_loop (ls : LoopState) (p : Process) : Process :=
  {| p_guid := p_guid p; p_step := p_step p;
     p_hasStartedRunning := p_hasStartedRunning p; p_loop := ls;
     p_signalled := p_signalled p; p_exited := p_exited p |}.

(** What the [select] of the supervisor loop receives. *)
Inductive SelectEvent : Type :=
| RecvSignal
| RecvHasStartedRunning
| RecvSeqComplete (err : option error).

Inductive LoopStep : Type :=
| Continue (ls : LoopState) (w : World)
| Break (ls : LoopState) (w : World)
| NotReady.   (* a receive from a nil channel is never chosen *)

Inductive LoopResult : Type :=
| Blocked (ls : LoopState) (w : World)   (* still inside the select *)
| Broke (ls : LoopState) (w : World).    (* left through break OUTER_LOOP *)

(** A receive from [signals] can only fire once [Signal] was called. *)
Definition ready (p : Process) (ev : SelectEvent) : bool :=
  match ev with
  | RecvSignal => p_signalled p
  | _ => true
  end.

(** The part of the world that belongs to the store itself: the process
    table and the registry.  Garden calls and events leave it alone. *)
Definition sameStore (w w' : World) : Prop :=
  procs w' = procs w /\ runningProcesses w' = runningProcesses w.

Section Store.

(** Declarations of the repository that live outside [src/]: the
    property keys and the exchanger of [exchanger.go], the text of an
    error, the string of a state and the JSON encoding of a result. *)
Variable ContainerStateProperty ContainerResultProperty : string.
Variable stateString : State -> string.
Variable Error : error -> string.
Variable jsonMarshal : ContainerRunResult -> error + string.
Variable Garden2Executor : string -> gmap string string -> error + Container.

(** Fields of the store that are set once, by [NewGardenStore]. *)
Variable healthyMonitoringInterval unhealthyMonitoringInterval : Z.

(** [gardenClient.Lookup]. *)
Definition gardenClient_Lookup (handle : string) (w : World) : error + string :=
  match lookupFault w !! handle with
  | Some e => inl e
  | None =>
      match garden w !! handle with
      | Some _ => inr handle
      | None => inl (GardenContainerNotFoundError handle)
      end
  end.

(** [store.lookup]: a garden not-found becomes [ErrContainerNotFound]. *)
Definition lookup (guid : string) (w : World) : error + string :=
  match gardenClient_Lookup guid w with
  | inl (GardenContainerNotFoundError _) => inl ErrContainerNotFound
  | inl e => inl e
  | inr gc => inr gc
  end.

(** [gardenContainer.SetProperty]. *)
Definition SetProperty (handle key value : string) (w : World) : option error * World :=
  match setPropertyFault w !! (handle, key) with
  | Some e => (Some e, w)
  | None =>
      match garden w !! handle with
      | None => (Some (GardenContainerNotFoundError handle), w)
      | Some props => (None, with_garden (<[handle := <[key := value]> props]> (garden w)) w)
      end
  end.

(** [exchanger.Garden2Executor] on the container behind a handle. *)
Definition exchange (handle : string) (w : World) : error + Container :=
  match garden w !! handle with
  | None => inl (GardenContainerNotFoundError handle)
  | Some props => Garden2Executor handle props
  end.

Definition EmitEvent (e : Event) (w : World) : World :=
  with_emitted (emitted w ++ [e]) w.

Definition transitionToRunning (gc : string) (w : World) : option error * World :=
  match SetProperty gc ContainerStateProperty (stateString StateRunning) w with
  | (Some e, w1) => (Some e, w1)
  | (None, w1) =>
      match exchange gc w1 with
      | inl e => (Some e, w1)
      | inr c => (None, EmitEvent (ContainerRunningEvent c) w1)
      end
  end.

Definition transitionToComplete (gc : string) (r : ContainerRunResult) (w : World)
  : option error * World :=
  match jsonMarshal r with
  | inl e => (Some e, w)
  | inr resultJson =>
      match SetProperty gc ContainerResultProperty resultJson w with
      | (Some e, w1) => (Some e, w1)
      | (None, w1) =>
          match SetProperty gc ContainerStateProperty (stateString StateCompleted) w1 with
          | (Some e, w2) => (Some e, w2)
          | (None, w2) =>
              match exchange gc w2 with
              | inl e => (Some e, w2)
              | inr c => (None, EmitEvent (ContainerCompleteEvent c) w2)
              end
          end
      end
  end.

(** One iteration of [OUTER_LOOP]: the case of the [select] that fired. *)
Definition selectCase (gc : string) (ev : SelectEvent) (ls : LoopState) (w : World)
  : LoopStep :=
  match ev with
  | RecvSignal =>
      if signalsNil ls then NotReady
      else Continue {| signalsNil := true;
                       hasStartedRunningNil := hasStartedRunningNil ls;
                       toldToStop := true;
                       result := result ls;
                       cancelCalls := S (cancelCalls ls) |} w
  | RecvHasStartedRunning =>
      if hasStartedRunningNil ls then NotReady
      else
        let ls1 := {| signalsNil := signalsNil ls;
                      hasStartedRunningNil := true;
                      toldToStop := toldToStop ls;
                      result := result ls;
                      cancelCalls := cancelCalls ls |} in
        match transitionToRunning gc w with
        | (Some e, w1) =>
            Break {| signalsNil := signalsNil ls1;
                     hasStartedRunningNil := true;
                     toldToStop := toldToStop ls1;
                     result := {| Failed := true; FailureReason := Error e |};
                     cancelCalls := cancelCalls ls1 |} w1
        | (None, w1) => Continue ls1 w1
        end
  | RecvSeqComplete err =>
      match err with
      | None => Break ls w
      | Some e =>
          if toldToStop ls then Break ls w
          else Break {| signalsNil := signalsNil ls;
                        hasStartedRunningNil := hasStartedRunningNil ls;
                        toldToStop := toldToStop ls;
                        result := {| Failed := true; FailureReason := Error e |};
                        cancelCalls := cancelCalls ls |} w
      end
  end.

(** [OUTER_LOOP] over the receives the scheduler delivers. *)
Fixpoint outerLoop (gc : string) (evs : list SelectEvent) (ls : LoopState) (w : World)
  : LoopResult :=
  match evs with
  | [] => Blocked ls w
  | ev :: rest =>
      match selectCase gc ev ls w with
      | NotReady => outerLoop gc rest ls w
      | Continue ls1 w1 => outerLoop gc rest ls1 w1
      | Break ls1 w1 => Broke ls1 w1
      end
  end.

(** The body of the closure given to [ifrit.Invoke], from the loop
    state [ls]: the loop, then the transition to complete, whose error
    is only logged.  [None] while the loop is still blocked. *)
Definition superviseFrom (gc : string) (evs : list SelectEvent) (ls : LoopState) (w : World)
  : option (LoopState * World) :=
  match outerLoop gc evs ls w with
  | Blocked _ _ => None
  | Broke ls1 w1 => Some (ls1, snd (transitionToComplete gc (result ls1) w1))
  end.

Definition supervise (gc : string) (evs : list SelectEvent) (w : World)
  : option (LoopState * World) :=
  superviseFrom gc evs initialLoopState w.

(** The goroutine of process [pid] runs for the receives [evs]. *)
Definition advance (pid : nat) (evs : list SelectEvent) (w : World) : World :=
  match procs w !! pid with
  | None => w
  | Some p =>
      if p_exited p then w
      else
        match outerLoop (p_guid p) (List.filter (ready p) evs) (p_loop p) w with
        | Blocked ls w1 => with_procs (<[pid := set_loop ls p]> (procs w1)) w1
        | Broke ls w1 =>
            let w2 := snd (transitionToComplete (p_guid p) (result ls) w1) in
            with_procs (<[pid := exit_process (set_loop ls p)]> (procs w2)) w2
        end
  end.

(** [<-process.Wait()] while the supervisor runs under the schedule
    [evs]: [None] when the supervisor has not exited, so the receive is
    still blocked. *)
Definition Wait (pid : nat) (evs : list SelectEvent) (w : World) : option World :=
  let w1 := advance pid evs w in
  match procs w1 !! pid with
  | None => None
  | Some p => if p_exited p then Some w1 else None
  end.

Definition freeStepProcess (guid : string) (w : World) : option nat * World :=
  match runningProcesses w !! guid with
  | None => (None, w)
  | Some pid =>
      let w1 := with_runningProcesses (delete guid (runningProcesses w)) w in
      (Some pid, with_procs (alter signal_process pid (procs w1)) w1)
  end.

(** [Stop]; [None] when the call is still blocked on the supervisor. *)
Definition Stop (guid : string) (evs : list SelectEvent) (w : World)
  : option (option error * World) :=
  match freeStepProcess guid w with
  | (None, w1) => Some (Some ErrContainerNotFound, w1)
  | (Some pid, w1) =>
      match Wait pid evs w1 with
      | None => None
      | Some w2 => Some (None, w2)
      end
  end.

(** [gardenClient.Destroy]. *)
Definition gardenClient_Destroy (handle : string) (w : World) : option error * World :=
  match destroyFault w !! handle with
  | Some e => (Some e, w)
  | None =>
      match garden w !! handle with
      | None => (Some (GardenContainerNotFoundError handle), w)
      | Some _ => (None, with_garden (delete handle (garden w)) w)
      end
  end.

Definition Destroy (guid : string) (w : World) : option error * World :=
  let w1 := snd (freeStepProcess guid w) in
  match gardenClient_Destroy guid w1 with
  | (Some (GardenContainerNotFoundError _), w2) => (None, w2)
  | (Some e, w2) => (Some e, w2)
  | (None, w2) => (None, w2)
  end.

(** [time.Duration(n) * time.Second] in int64 nanoseconds. *)
Definition wrap64 (z : Z) : Z := (z + 2 ^ 63) mod 2 ^ 64 - 2 ^ 63.

Definition seconds (n : Z) : Z := wrap64 (wrap64 n * 1000000000).

Definition runStepProcess (step : StepTree) (tokens : nat) (guid : string) (w : World)
  : World :=
  let pid := length (procs w) in
  let p := {| p_guid := guid; p_step := step; p_hasStartedRunning := tokens;
              p_loop := initialLoopState;
              p_signalled := false; p_exited := false |} in
  with_runningProcesses (<[guid := pid]> (runningProcesses w))
    (with_procs (procs w ++ [p]) w).

Definition Run (container : Container) (w : World) : option error * World :=
  match lookup (Guid container) w with
  | inl e => (Some e, w)
  | inr gc =>
      if decide (CState container = StateCreated) then
        let actionStep := StepFor (MainAction container) in
        let longLivedAction :=
          match Monitor container with
          | Some m =>
              NewCodependent
                [actionStep;
                 NewMonitor m (seconds (StartTimeout container))
                   healthyMonitoringInterval unhealthyMonitoringInterval]
          | None => actionStep
          end in
        let tokens := match Monitor container with Some _ => 0 | None => 1 end in
        let step :=
          match Setup container with
          | Some s => NewSerial [StepFor s; longLivedAction]
          | None => longLivedAction
          end in
        (None, runStepProcess step tokens (Guid container) w)
      else
        let r := {| Failed := true; FailureReason := Error ErrInvalidTransition |} in
        (Some ErrInvalidTransition, snd (transitionToComplete gc r w))
  end.

End Store.

End GardenStore.

(** ** The [steps] package *)

Module Steps.

(** Go code that may panic. *)
Inductive Go (A : Type) : Type :=
| Normal (a : A)
| Panic (msg : string).
Arguments Normal {A} a.
Arguments Panic {A} msg.

(** A [chan struct{}] on which nothing is ever sent: all that can happen
    to it is [close], and a receive is ready exactly when it is closed. *)
Inductive Chan : Type :=
| ChanOpen
| ChanClosed.

Definition close (c : Chan) : Go Chan :=
  match c with
  | ChanOpen => Normal ChanClosed
  | ChanClosed => Panic "close of closed channel"
  end.

(** *** The download step *)

Record DownloadAction : Type := {
  From : string;
  To : string;
  CacheKey : string;
  Artifact : string
}.

Record downloadStep : Type := {
  model : DownloadAction;
  cancelChan : Chan
}.

(** [NewDownload]: [cancelChan := make(chan struct{})]. *)
Definition NewDownload (m : DownloadAction) : downloadStep :=
  {| model := m; cancelChan := ChanOpen |}.

(** [func (step *downloadStep) Cancel() { close(step.cancelChan) }] *)
Definition downloadStep_Cancel (step : downloadStep) : Go downloadStep :=
  match close (cancelChan step) with
  | Normal c => Normal {| model := model step; cancelChan := c |}
  | Panic msg => Panic msg
  end.

(** What the world outside the step does during one [Perform]: whether
    the rate limiter has room, which case the first [select] takes when both
    are ready, what [download] and [StreamIn] return, and whether [Cancel]
    is called while they run. *)
Record DownloadedFile : Type := {
  isCachedFile : bool;          (* the reader is a *cacheddownloader.CachedFile *)
  statResult : error + Z        (* f.Stat(): the size *)
}.

Record DownloadRun : Type := {
  limiterHasRoom : bool;
  selectTakesCancel : bool;
  downloadResult : error + DownloadedFile;
  cancelledDuringDownload : bool;
  streamInResult : option error;
  cancelledDuringStreamIn : bool
}.

Record DownloadOutcome : Type := {
  returned : option error;
  emittedLines : list string;    (* written to streamer.Stdout() *)
  fileClosed : bool              (* downloadedFile.Close() was called *)
}.

Definition nl : string := String "010"%char EmptyString.

Definition isClosed (c : Chan) : bool :=
  match c with
  | ChanClosed => true
  | ChanOpen => false
  end.

Section Download.

(** [bytefmt.ByteSize], from a library outside the repository. *)
Variable ByteSize : Z -> string.

(** [step.emit]: only when the action names an artifact. *)
Definition emit (step : downloadStep) (text : string) (lines : list string) : list string :=
  if decide (Artifact (model step) = "") then lines else lines ++ [text].

(** [downloadStep.Perform]; [None] while it is blocked in its first
    [select], the rate limiter being full and the step not cancelled.  The
    slot it takes in the rate limiter is given back when it returns. *)
Definition downloadStep_Perform (step : downloadStep) (run : DownloadRun)
  : option DownloadOutcome :=
  let cancelled0 := isClosed (cancelChan step) in
  if cancelled0 && (negb (limiterHasRoom run) || selectTakesCancel run) then
    Some {| returned := Some CancelError; emittedLines := []; fileClosed := false |}
  else if negb (limiterHasRoom run) then None
  else
    let lines1 := emit step ("Downloading " +:+ Artifact (model step) +:+ "..." +:+ nl) [] in
    let cancelled1 := cancelled0 || cancelledDuringDownload run in
    match downloadResult run with
    | inl err =>
        if cancelled1 then
          Some {| returned := Some CancelError; emittedLines := lines1; fileClosed := false |}
        else
          Some {| returned := Some (EmittableError (Some err) "Downloading failed" "");
                  emittedLines :=
                    emit step ("Failed to download " +:+ Artifact (model step) +:+ nl) lines1;
                  fileClosed := false |}
    | inr file =>
        match (if isCachedFile file then
                 match statResult file with
                 | inl err => inl err
                 | inr size => inr (ByteSize size)
                 end
               else inr "unknown") with
        | inl err =>
            Some {| returned :=
                      Some (EmittableError (Some err) "Unable to obtain download size" "");
                    emittedLines := lines1; fileClosed := false |}
        | inr downloadSize =>
            let lines2 :=
              emit step ("Downloaded " +:+ Artifact (model step) +:+ " (" +:+ downloadSize
                           +:+ ")" +:+ nl) lines1 in
            let cancelled2 := cancelled1 || cancelledDuringStreamIn run in
            match streamInResult run with
            | Some err =>
                Some {| returned :=
                          if cancelled2 then Some CancelError
                          else Some (EmittableError (Some err)
                                       "Copying into the container failed" "");
                        emittedLines := lines2; fileClosed := true |}
            | None =>
                Some {| returned := None; emittedLines := lines2; fileClosed := cancelled2 |}
            end
        end
    end.

End Download.

(** *** The upload step: [func (step *UploadStep) Cancel() {}] *)

Record UploadStep : Type := {
  uploadFrom : string;
  uploadTo : string
}.

Definition UploadStep_Cancel (step : UploadStep) : Go UploadStep := Normal step.

(** *** What a step writes to its log streamer *)

Inductive LogLine : Type :=
| Stdout (text : string)
| HealthStderr (text : string)           (* the streamer with source HEALTH *)
| StderrTimeoutMessage (startTimeout : Z). (* timeoutMessage, formatted *)

(** What [Perform] has done once the given receives are consumed. *)
Inductive PerformResult (V : Type) : Type :=
| Returned (err : option error) (v : V)
| Running (v : V).
Arguments Returned {V} err v.
Arguments Running {V} v.

Definition vars {V : Type} (r : PerformResult V) : V :=
  match r with
  | Returned _ v => v
  | Running v => v
  end.

(** *** [monitor_step.go]: the periodic monitor *)

Record monitorStep : Type := {
  startTimeout : Z;
  healthyInterval : Z;
  unhealthyInterval : Z
}.

(** What the two nested [select]s of one loop iteration receive. *)
Inductive MonitorEvent : Type :=
| TimerC (now : Z) (stepErr : option error)
    (* the timer fired at [now]; the check ran and sent [stepErr] *)
| TimerCThenCancelled (now : Z) (stepErr : option error)
    (* the timer fired; Cancelled() became ready while the check ran *)
| CancelledC.
    (* Cancelled() became ready while waiting for the timer *)


(** The local variables of [Perform] and its visible effects. *)
Record MonitorVars : Type := {
  healthy : bool;
  interval : Z;
  startBy : option Z;
  sent : nat;                (* tokens sent on hasStartedRunning *)
  stderr : list LogLine;
  resets : list Z            (* arguments of timer.Reset *)
}.

Definition timerReset (v : MonitorVars) : MonitorVars :=
  {| healthy := healthy v; interval := interval v; startBy := startBy v;
     sent := sent v; stderr := stderr v; resets := resets v ++ [interval v] |}.

Definition isNil (e : option error) : bool :=
  match e with
  | None => true
  | Some _ => false
  end.

Definition monitorIteration (step : monitorStep) (ev : MonitorEvent) (v : MonitorVars)
  : PerformResult MonitorVars :=
  match ev with
  | CancelledC => Returned (Some ErrCancelled) v
  | TimerCThenCancelled now stepErr => Returned stepErr v
  | TimerC now stepErr =>
      let nowHealthy := isNil stepErr in
      if healthy v && negb nowHealthy then Returned stepErr v
      else
        let v1 :=
          if negb (healthy v) && nowHealthy then
            {| healthy := true; interval := healthyInterval step; startBy := None;
               sent := S (sent v); stderr := stderr v; resets := resets v |}
          else v in
        match startBy v1 with
        | Some deadline =>
            if (deadline <? now)%Z then
              if negb (healthy v1) then
                Returned stepErr
                  {| healthy := healthy v1; interval := interval v1; startBy := startBy v1;
                     sent := sent v1;
                     stderr := stderr v1 ++ [StderrTimeoutMessage (startTimeout step)];
                     resets := resets v1 |}
              else
                Running (timerReset
                  {| healthy := healthy v1; interval := interval v1; startBy := None;
                     sent := sent v1; stderr := stderr v1; resets := resets v1 |})
            else Running (timerReset v1)
        | None => Running (timerReset v1)
        end
  end.

Fixpoint monitorLoop (step : monitorStep) (evs : list MonitorEvent) (v : MonitorVars)
  : PerformResult MonitorVars :=
  match evs with
  | [] => Running v
  | ev :: rest =>
      match monitorIteration step ev v with
      | Returned err v1 => Returned err v1
      | Running v1 => monitorLoop step rest v1
      end
  end.

Definition monitorInit (step : monitorStep) (start : Z) : MonitorVars :=
  {| healthy := false; interval := unhealthyInterval step;
     startBy := if (0 <? startTimeout step)%Z then Some (start + startTimeout step)%Z else None;
     sent := 0; stderr := []; resets := [] |}.

(** [monitorStep.Perform], [start] being what [timeProvider.Now()]
    returns at its beginning. *)
Definition monitorStep_Perform (step : monitorStep) (start : Z) (evs : list MonitorEvent)
  : PerformResult MonitorVars :=
  if (healthyInterval step <=? 0)%Z then
    Returned (Some (InvalidInterval "healthy" (healthyInterval step))) (monitorInit step start)
  else if (unhealthyInterval step <=? 0)%Z then
    Returned (Some (InvalidInterval "unhealthy" (unhealthyInterval step))) (monitorInit step start)
  else monitorLoop step evs (monitorInit step start).

(** A tick at which the check fails with the given error. *)
Definition failing (tick : Z * error) : MonitorEvent :=
  TimerC (fst tick) (Some (snd tick)).


(** *** [long_running_monitor_step.go] *)

(** The first [select]: what arrives first, and what the check sends on
    [errCh] (after [Cancel] in the last two cases); [out] is the content
    of [outBuffer] when it is read. *)
Inductive ReadinessSelect : Type :=
| ReadinessErrCh (err : option error)
| ReadinessTimerC (err : option error) (out : string)
| ReadinessCancelled (err : option error).

Inductive LivenessSelect : Type :=
| LivenessErrCh (err : option error) (out : string)
| LivenessCancelled (err : option error).

Record LongRunningVars : Type := {
  lr_sent : nat;            (* tokens sent on hasStartedRunning *)
  lr_cancelled : nat;       (* calls of Cancel on a check *)
  lr_log : list LogLine
}.

Section LongRunning.

(** The message constant, declared in a file outside [src/]. *)
Variable healthcheckNowUnhealthy : string.

Definition longRunningMonitorStep_Perform (lr_startTimeout : Z)
    (readiness : option ReadinessSelect) (liveness : option LivenessSelect)
  : PerformResult LongRunningVars :=
  let log0 := [Stdout ("Starting health monitoring of container" +:+ nl)] in
  match readiness with
  | None => Running {| lr_sent := 0; lr_cancelled := 0; lr_log := log0 |}
  | Some (ReadinessTimerC err out) =>
      Returned (Some (EmittableError err healthcheckNowUnhealthy out))
        {| lr_sent := 0; lr_cancelled := 1;
           lr_log := log0 ++ [HealthStderr (out +:+ nl);
                              StderrTimeoutMessage lr_startTimeout] |}
  | Some (ReadinessCancelled err) =>
      Returned err {| lr_sent := 0; lr_cancelled := 1; lr_log := log0 |}
  | Some (ReadinessErrCh _) =>
      let log1 := log0 ++ [Stdout ("Container became healthy" +:+ nl)] in
      match liveness with
      | None => Running {| lr_sent := 1; lr_cancelled := 0; lr_log := log1 |}
      | Some (LivenessErrCh err out) =>
          Returned (Some (EmittableError err healthcheckNowUnhealthy out))
            {| lr_sent := 1; lr_cancelled := 0;
               lr_log := log1 ++ [Stdout ("Container became unhealthy" +:+ nl);
                                  HealthStderr (out +:+ nl)] |}
      | Some (LivenessCancelled err) =>
          Returned err {| lr_sent := 1; lr_cancelled := 1; lr_log := log1 |}
      end
  end.

End LongRunning.

(** *** The step interface and the combinators *)

(** [Step]: the three methods, acting on whatever state [S] the steps of
    one tree share. *)
Record Step (S : Type) : Type := {
  Perform : S -> option error * S;
  Cancel : S -> S;
  Cleanup : S -> S
}.
Arguments Perform {S} _ _.
Arguments Cancel {S} _ _.
Arguments Cleanup {S} _ _.

(** A fake step in the style of the tests: a nil stub returns zero values. *)
Record FakeStep (S : Type) : Type := {
  PerformStub : option (S -> option error * S);
  CancelStub : option (S -> S);
  CleanupStub : option (S -> S)
}.
Arguments PerformStub {S} _.
Arguments CancelStub {S} _.
Arguments CleanupStub {S} _.

Definition fake {S : Type} (f : FakeStep S) : Step S :=
  {| Perform s := match PerformStub f with Some g => g s | None => (None, s) end;
     Cancel s := match CancelStub f with Some g => g s | None => s end;
     Cleanup s := match CleanupStub f with Some g => g s | None => s end |}.

(** Calls observed on the children of a combinator. *)
Inductive Call : Type :=
| PerformCall (child : nat)
| CleanupCall (child : nat)
| CancelCall (child : nat).

(** A step that also records each call made on it. *)
Definition recorded {S : Type} (child : nat) (st : Step S) : Step (S * list Call) :=
  {| Perform s :=
       let '(err, s1) := Perform st (fst s) in (err, (s1, snd s ++ [PerformCall child]));
     Cancel s := (Cancel st (fst s), snd s ++ [CancelCall child]);
     Cleanup s := (Cleanup st (fst s), snd s ++ [CleanupCall child]) |}.

Section Combinators.
Context {S : Type}.

(** Modelled from the spec: [serial_step.go] is not in src (its test
    is).  Children run in order, the first error stops the run and is
    returned, and [Cleanup] runs over the children that were performed,
    last one first; as in the step's test, the child that failed is not
    among them.  [performed] holds them most recent first. *)
Fixpoint serialPerformFrom (todo performed : list (Step S)) (s : S) : option error * S :=
  match todo with
  | [] => (None, fold_left (fun acc st => Cleanup st acc) performed s)
  | st :: rest =>
      match Perform st s with
      | (Some e, s1) => (Some e, fold_left (fun acc st => Cleanup st acc) performed s1)
      | (None, s1) => serialPerformFrom rest (st :: performed) s1
      end
  end.

Definition serialStep_Perform (steps : list (Step S)) (s : S) : option error * S :=
  serialPerformFrom steps [] s.

(** Modelled from the spec: [parallel_step.go] is not in src (its test
    is).  Every child is started; [Perform] receives one result per
    child and returns the first error it received.  [completions] lists
    the children in the order in which they finish, a child's effects
    being in place when it finishes. *)
Fixpoint parallelCollect (substeps : list (Step S)) (completions : list nat)
    (first : option error) (s : S) : option error * S :=
  match completions with
  | [] => (first, s)
  | i :: rest =>
      match substeps !! i with
      | None => parallelCollect substeps rest first s
      | Some st =>
          let '(err, s1) := Perform st s in
          parallelCollect substeps rest
            (match first with Some e => Some e | None => err end) s1
      end
  end.

Definition parallelStep_Perform (substeps : list (Step S)) (completions : list nat) (s : S)
  : PerformResult S :=
  let '(err, s1) := parallelCollect substeps (take (length substeps) completions) None s in
  if (length completions <? length substeps)%nat then Running s1 else Returned err s1.

Definition parallelStep_Cancel (substeps : list (Step S)) (s : S) : S :=
  fold_left (fun acc st => Cancel st acc) substeps s.

End Combinators.

End Steps.

(** ** The allocation store *)

Module AllocationStore.

Record Capacity : Type := {
  memoryMB : Z;
  diskMB : Z;
  containers : Z
}.

Record Store : Type := {
  allocated : gmap string Container;
  available : Capacity
}.

Definition NewAllocationStore (total : Capacity) : Store :=
  {| allocated := ∅; available := total |}.

Definition withState (st : State) (c : Container) : Container :=
  {| Guid := Guid c; MemoryMB := MemoryMB c; DiskMB := DiskMB c;
     AllocatedAt := AllocatedAt c; CState := st; Setup := Setup c;
     MainAction := MainAction c; Monitor := Monitor c;
     StartTimeout := StartTimeout c; RunResult := RunResult c |}.

Definition withAllocatedAt (t : Z) (c : Container) : Container :=
  {| Guid := Guid c; MemoryMB := MemoryMB c; DiskMB := DiskMB c;
     AllocatedAt := t; CState := CState c; Setup := Setup c;
     MainAction := MainAction c; Monitor := Monitor c;
     StartTimeout := StartTimeout c; RunResult := RunResult c |}.

Definition withRunResult (r : ContainerRunResult) (c : Container) : Container :=
  {| Guid := Guid c; MemoryMB := MemoryMB c; DiskMB := DiskMB c;
     AllocatedAt := AllocatedAt c; CState := CState c; Setup := Setup c;
     MainAction := MainAction c; Monitor := Monitor c;
     StartTimeout := StartTimeout c; RunResult := r |}.

Definition fits (c : Container) (cap : Capacity) : bool :=
  (MemoryMB c <=? memoryMB cap)%Z && (DiskMB c <=? diskMB cap)%Z && (1 <=? containers cap)%Z.

Definition take_capacity (c : Container) (cap : Capacity) : Capacity :=
  {| memoryMB := memoryMB cap - MemoryMB c; diskMB := diskMB cap - DiskMB c;
     containers := containers cap - 1 |}%Z.

Definition give_capacity (c : Container) (cap : Capacity) : Capacity :=
  {| memoryMB := memoryMB cap + MemoryMB c; diskMB := diskMB cap + DiskMB c;
     containers := containers cap + 1 |}%Z.

(** Modelled from the spec: [allocationstore.go] is not in src (its test
    is).  [Allocate] follows section 4.1: the key must be free and the
    request must fit; the entry is stored [Reserved] with the allocation
    time, and the capacity is taken. *)
Definition Allocate (now : Z) (c : Container) (s : Store) : option error * Store :=
  match allocated s !! Guid c with
  | Some _ => (Some ErrAlreadyExists, s)
  | None =>
      if fits c (available s) then
        (None, {| allocated := <[Guid c := withAllocatedAt now (withState StateReserved c)]> (allocated s);
                  available := take_capacity c (available s) |})
      else (Some ErrInsufficientCapacity, s)
  end.

(** Modelled from the spec: [Initialize] requires [Reserved] and moves
    the entry to [Initializing]; it fails with not-found or invalid
    transition. *)
Definition Initialize (guid : string) (s : Store) : option error * Store :=
  match allocated s !! guid with
  | None => (Some ErrContainerNotFound, s)
  | Some c =>
      if decide (CState c = StateReserved) then
        (None, {| allocated := <[guid := withState StateInitializing c]> (allocated s);
                  available := available s |})
      else (Some ErrInvalidTransition, s)
  end.

(** Modelled from the spec: [Fail] is missing from src.  Section 4.1:
    from [Initializing] it records a failed run result; the store holds
    [Reserved] and [Initializing] entries and does not model [Completed], so
    the state of the entry is left as it is.  It fails with not-found or
    invalid transition. *)
Definition Fail (guid reason : string) (s : Store) : option error * Store :=
  match allocated s !! guid with
  | None => (Some ErrContainerNotFound, s)
  | Some c =>
      if decide (CState c = StateInitializing) then
        (None, {| allocated :=
                    <[guid := withRunResult {| Failed := true; FailureReason := reason |} c]>
                      (allocated s);
                  available := available s |})
      else (Some ErrInvalidTransition, s)
  end.

(** Modelled from the spec: [Deallocate] removes the entry and releases
    its capacity; not-found when the entry is absent. *)
Definition Deallocate (guid : string) (s : Store) : option error * Store :=
  match allocated s !! guid with
  | None => (Some ErrContainerNotFound, s)
  | Some c =>
      (None, {| allocated := delete guid (allocated s);
                available := give_capacity c (available s) |})
  end.

(** Modelled from the spec: [Lookup] is a snapshot read. *)
Definition Lookup (guid : string) (s : Store) : error + Container :=
  match allocated s !! guid with
  | None => inl ErrContainerNotFound
  | Some c => inr c
  end.

(** Modelled from the spec: the operations a caller issues, for the
    sequences of store operations of section 8. *)
Inductive Op : Type :=
| OpAllocate (now : Z) (c : Container)
| OpInitialize (guid : string)
| OpFail (guid reason : string)
| OpDeallocate (guid : string).

(** One operation of the caller, dispatched to the store. *)
Definition apply (o : Op) (s : Store) : option error * Store :=
  match o with
  | OpAllocate now c => Allocate now c s
  | OpInitialize guid => Initialize guid s
  | OpFail guid reason => Fail guid reason s
  | OpDeallocate guid => Deallocate guid s
  end.



End AllocationStore.

(** ** Concrete stand-ins used by the examples *)

Module Fixture.

Definition ContainerStateProperty : string := "executor:state".
Definition ContainerResultProperty : string := "executor:result".

Definition stateString (s : State) : string :=
  match s with
  | StateReserved => "reserved"
  | StateInitializing => "initializing"
  | StateCreated => "created"
  | StateRunning => "running"
  | StateCompleted => "completed"
  end.

Definition Error (e : error) : string :=
  match e with
  | ErrContainerNotFound => "container not found"
  | ErrInvalidTransition => "invalid state transition"
  | ErrCancelled => "steps cancelled"
  | CancelError => "cancelled"
  | ErrAlreadyExists => "container guid not available"
  | ErrInsufficientCapacity => "insufficient resources available"
  | GardenContainerNotFoundError h => "unknown handle: " +:+ h
  | ErrorString msg => msg
  | InvalidInterval field _ => "The " +:+ field +:+ " interval is not positive."
  | EmittableError _ msg _ => msg
  end.

(** A stand-in for the JSON encoding of a run result. *)
Definition jsonMarshal (r : ContainerRunResult) : error + string :=
  inr ((if Failed r then "failed;" else "ok;") +:+ FailureReason r).

Definition jsonUnmarshal (s : string) : ContainerRunResult :=
  if String.prefix "failed;" s then
    {| Failed := true; FailureReason := String.substring 7 (String.length s - 7) s |}
  else if String.prefix "ok;" s then
    {| Failed := false; FailureReason := String.substring 3 (String.length s - 3) s |}
  else zeroRunResult.

Definition parseState (s : string) : State :=
  if String.eqb s "completed" then StateCompleted
  else if String.eqb s "running" then StateRunning
  else if String.eqb s "initializing" then StateInitializing
  else if String.eqb s "reserved" then StateReserved
  else StateCreated.

(** A stand-in for the exchanger: the container as its properties
    describe it. *)
Definition Garden2Executor (handle : string) (props : gmap string string)
  : error + Container :=
  inr {| Guid := handle; MemoryMB := 0; DiskMB := 0; AllocatedAt := 0;
         CState := match props !! ContainerStateProperty with
                   | Some s => parseState s
                   | None => StateCreated
                   end;
         Setup := None; MainAction := "run"; Monitor := None; StartTimeout := 0;
         RunResult := match props !! ContainerResultProperty with
                      | Some s => jsonUnmarshal s
                      | None => zeroRunResult
                      end |}.

Definition container (guid : string) (st : State) : Container :=
  {| Guid := guid; MemoryMB := 512; DiskMB := 512; AllocatedAt := 0;
     CState := st; Setup := None; MainAction := "run"; Monitor := None;
     StartTimeout := 0; RunResult := zeroRunResult |}.

(** A garden server holding one container with no properties yet, and a
    store that has started nothing. *)
Definition world (handle : string) : GardenStore.World :=
  {| GardenStore.garden := {[ handle := ∅ ]};
     GardenStore.lookupFault := ∅;
     GardenStore.setPropertyFault := ∅;
     GardenStore.destroyFault := ∅;
     GardenStore.emitted := [];
     GardenStore.procs := [];
     GardenStore.runningProcesses := ∅ |}.

Definition Run : Container -> GardenStore.World -> option error * GardenStore.World :=
  GardenStore.Run ContainerStateProperty ContainerResultProperty stateString Error
    jsonMarshal Garden2Executor 1000000000 500000000.

Definition Stop : string -> list GardenStore.SelectEvent -> GardenStore.World
                  -> option (option error * GardenStore.World) :=
  GardenStore.Stop ContainerStateProperty ContainerResultProperty stateString Error
    jsonMarshal Garden2Executor.

Definition supervise : string -> list GardenStore.SelectEvent -> GardenStore.World
                       -> option (GardenStore.LoopState * GardenStore.World) :=
  GardenStore.supervise ContainerStateProperty ContainerResultProperty stateString Error
    jsonMarshal Garden2Executor.

(** The container of the examples, in two states, and the world after
    [Run] has started the created one. *)
Definition running : Container := container "a" StateRunning.
Definition created : Container := container "a" StateCreated.
Definition w0 : GardenStore.World := world "a".
Definition started : GardenStore.World := snd (Run created w0).

(** A monitor with a start timeout of 100ms, checking every 30ms while
    unhealthy and every 60ms once healthy (nanoseconds). *)
Definition monitor : Steps.monitorStep :=
  {| Steps.startTimeout := 100000000;
     Steps.healthyInterval := 60000000;
     Steps.unhealthyInterval := 30000000 |}.

(** Fake steps over a log of numbers, in the style of the combinator
    tests: each stub sends its number. *)
Definition sends (n : nat) (err : option error) : list nat -> option error * list nat :=
  fun log => (err, log ++ [n]).

Definition fakeStep (n : nat) (err : option error) : Steps.Step (list nat) :=
  Steps.fake {| Steps.PerformStub := Some (sends n err);
                Steps.CancelStub := None;
                Steps.CleanupStub := Some (fun log => log ++ [10 * n]) |}.

Definition disaster : error := ErrorString "oh no!".

Definition banana : Container :=
  {| Guid := "banana"; MemoryMB := 512; DiskMB := 512; AllocatedAt := 0;
     CState := StateReserved; Setup := None; MainAction := "run"; Monitor := None;
     StartTimeout := 0; RunResult := zeroRunResult |}.

Definition node : AllocationStore.Capacity :=
  {| AllocationStore.memoryMB := 1024; AllocationStore.diskMB := 1024;
     AllocationStore.containers := 10 |}.

(** The store of the [Fail] test after its setup: allocated, initialized. *)
Definition initializing : AllocationStore.Store :=
  snd (AllocationStore.Initialize "banana"
         (snd (AllocationStore.Allocate 7 banana (AllocationStore.NewAllocationStore node)))).

Definition fresh : AllocationStore.Store := AllocationStore.NewAllocationStore node.
Definition reserved : AllocationStore.Store := snd (AllocationStore.Allocate 7 banana fresh).
Definition failed : AllocationStore.Store :=
  snd (AllocationStore.Fail "banana" "failure-reason" initializing).

(** Which of a list of returned errors are nil. *)
Definition isNil_table (errs : list (option error)) : list bool := map Steps.isNil errs.

End Fixture.

(** ** What an observer of the supervisor loop sees *)

Module Observe.

Import GardenStore.

Definition loopState (r : LoopResult) : LoopState :=
  match r with
  | Blocked ls _ => ls
  | Broke ls _ => ls
  end.

Definition loopWorld (r : LoopResult) : World :=
  match r with
  | Blocked _ w => w
  | Broke _ w => w
  end.

Definition isSeqComplete (ev : SelectEvent) : bool :=
  match ev with
  | RecvSeqComplete _ => true
  | _ => false
  end.

Definition isSignal (ev : SelectEvent) : bool :=
  match ev with
  | RecvSignal => true
  | _ => false
  end.

(** No event, or the one running event. *)
Definition atMostRunning (evs : list Event) : Prop :=
  evs = [] \/ exists c, evs = [ContainerRunningEvent c].

(** No event, or the one complete event. *)
Definition atMostComplete (evs : list Event) : Prop :=
  evs = [] \/ exists c, evs = [ContainerCompleteEvent c].

(** The signal is taken once: afterwards [signals] is nil, the stop is
    recorded and the step has been cancelled once. *)
Definition signalInvariant (ls : LoopState) : Prop :=
  toldToStop ls = signalsNil ls /\
  cancelCalls ls = if signalsNil ls then 1 else 0.

End Observe.

(** ** The upload step ([package upload_step]) *)

Module Upload.

Import Steps.

Definition ErrCreateTmpDir : string := "Failed to create temp dir".
Definition ErrEstablishStream : string := "Failed to establish stream from container".
Definition ErrReadTar : string := "Failed to find first item in tar stream".
Definition ErrCreateTmpFile : string := "Failed to create temp file".
Definition ErrCopyStreamToTmp : string := "Failed to copy stream contents into temp file".

(** What the calls made by one [Perform] return. *)
Record UploadRun : Type := {
  acquireResult : option error;       (* step.semaphore.Acquire() *)
  tempDirResult : error + string;     (* ioutil.TempDir: the directory *)
  streamOutResult : option error;     (* step.container.StreamOut *)
  tarNextResult : option error;       (* tarStream.Next() *)
  tempFileResult : error + string;    (* ioutil.TempFile: the file's name *)
  copyResult : option error;          (* io.Copy(tempFile, tarStream) *)
  uploadResult : error + Z            (* step.uploader.Upload: bytes uploaded *)
}.

(** The deferred calls. *)
Inductive Deferred : Type :=
| Release                      (* resource.Release() *)
| RemoveAll (path : string)    (* os.RemoveAll *)
| CloseOutStream               (* outStream.Close() *)
| CloseTempFile.               (* tempFile.Close() *)

Record UploadOutcome : Type := {
  uploadReturned : option error;
  deferredCalls : list Deferred;     (* in the order in which they run *)
  uploadStdout : list string
}.

Section Perform.

(** [url.ParseRequestURI] and [bytefmt.ByteSize], from outside the
    repository. *)
Variable ParseRequestURI : string -> option error.
Variable ByteSize : Z -> string.

(** [UploadStep.Perform].  [defers] holds the deferred calls, the one
    registered last first, which is the order in which they run. *)
Definition UploadStep_Perform (step : UploadStep) (run : UploadRun) : UploadOutcome :=
  match acquireResult run with
  | Some err => {| uploadReturned := Some err; deferredCalls := []; uploadStdout := [] |}
  | None =>
      let defers1 := [Release] in
      match ParseRequestURI (uploadTo step) with
      | Some err =>
          {| uploadReturned := Some err; deferredCalls := defers1; uploadStdout := [] |}
      | None =>
          match tempDirResult run with
          | inl err =>
              {| uploadReturned := Some (EmittableError (Some err) ErrCreateTmpDir "");
                 deferredCalls := defers1; uploadStdout := [] |}
          | inr tempDir =>
              let defers2 := RemoveAll tempDir :: defers1 in
              match streamOutResult run with
              | Some err =>
                  {| uploadReturned := Some (EmittableError (Some err) ErrEstablishStream "");
                     deferredCalls := defers2; uploadStdout := [] |}
              | None =>
                  let defers3 := CloseOutStream :: defers2 in
                  match tarNextResult run with
                  | Some err =>
                      {| uploadReturned := Some (EmittableError (Some err) ErrReadTar "");
                         deferredCalls := defers3; uploadStdout := [] |}
                  | None =>
                      match tempFileResult run with
                      | inl err =>
                          {| uploadReturned :=
                               Some (EmittableError (Some err) ErrCreateTmpFile "");
                             deferredCalls := defers3; uploadStdout := [] |}
                      | inr finalFileLocation =>
                          let defers4 := CloseTempFile :: defers3 in
                          match copyResult run with
                          | Some err =>
                              {| uploadReturned :=
                                   Some (EmittableError (Some err) ErrCopyStreamToTmp "");
                                 deferredCalls := defers4; uploadStdout := [] |}
                          | None =>
                              let defers5 := RemoveAll finalFileLocation :: defers4 in
                              match uploadResult run with
                              | inl err =>
                                  {| uploadReturned := Some err; deferredCalls := defers5;
                                     uploadStdout := [] |}
                              | inr uploadedBytes =>
                                  {| uploadReturned := None; deferredCalls := defers5;
                                     uploadStdout :=
                                       ["Uploaded (" +:+ ByteSize uploadedBytes +:+ ")" +:+ nl] |}
                              end
                          end
                      end
                  end
              end
          end
      end
  end.

End Perform.

Definition isEmittable (e : option error) : bool :=
  match e with
  | Some (EmittableError _ _ _) => true
  | _ => false
  end.

End Upload.

(** ** The store of [package store], an earlier [garden_store.go] *)

Module LegacyStore.

Import GardenStore.

(** The local variables of the closure in this [runStepProcess]; there is
    no [toldToStop]. *)
Record LoopVars : Type := {
  signalsNil : bool;
  hasStartedRunningNil : bool;
  result : ContainerRunResult;
  stepCancels : nat;       (* calls of step.Cancel() *)
  monitorCancels : nat     (* calls of monitorStep.Cancel() made by the loop *)
}.

Definition initialLoopVars : LoopVars :=
  {| signalsNil := false; hasStartedRunningNil := false; result := zeroRunResult;
     stepCancels := 0; monitorCancels := 0 |}.

Inductive LoopStep : Type :=
| Continue (ls : LoopVars) (w : World)
| Break (ls : LoopVars) (w : World)
| NotReady.

Section Store.

Variable ContainerStateProperty ContainerResultProperty : string.
Variable stateString : State -> string.
Variable Error : error -> string.
Variable jsonMarshal : ContainerRunResult -> error + string.
Variable Garden2Executor : string -> gmap string string -> error + Container.

(** [transitionToRunning] and [transitionToComplete] are, but for the way
    the event is built, the ones of [GardenStore]. *)
Definition transitionToRunning : string -> World -> option error * World :=
  GardenStore.transitionToRunning ContainerStateProperty stateString Garden2Executor.

Definition transitionToComplete : string -> ContainerRunResult -> World -> option error * World :=
  GardenStore.transitionToComplete ContainerStateProperty ContainerResultProperty
    stateString jsonMarshal Garden2Executor.

(** [Lookup]: any error of the garden lookup becomes
    [ErrContainerNotFound]. *)
Definition Lookup (guid : string) (w : World) : error + Container :=
  match gardenClient_Lookup guid w with
  | inl _ => inl ErrContainerNotFound
  | inr gc => exchange Garden2Executor gc w
  end.

(** [freeStepProcess]: the entry is deleted whether or not it is found. *)
Definition freeStepProcess (guid : string) (w : World) : option nat * World :=
  let w1 := with_runningProcesses (delete guid (runningProcesses w)) w in
  match runningProcesses w !! guid with
  | None => (None, w1)
  | Some pid => (Some pid, with_procs (alter signal_process pid (procs w1)) w1)
  end.

(** [Destroy]: the error of the garden call is returned as it is. *)
Definition Destroy (guid : string) (w : World) : option error * World :=
  let w1 := snd (freeStepProcess guid w) in
  match gardenClient_Destroy guid w1 with
  | (Some e, w2) => (Some e, w2)
  | (None, w2) => (None, w2)
  end.

(** One iteration of [OUTER_LOOP]; [monitored] says whether [monitorStep]
    is not nil. *)
Definition selectCase (monitored : bool) (gc : string) (ev : SelectEvent)
    (ls : LoopVars) (w : World) : LoopStep :=
  match ev with
  | RecvSignal =>
      if signalsNil ls then NotReady
      else Continue {| signalsNil := true;
                       hasStartedRunningNil := hasStartedRunningNil ls;
                       result := result ls;
                       stepCancels := S (stepCancels ls);
                       monitorCancels :=
                         if monitored then S (monitorCancels ls) else monitorCancels ls |} w
  | RecvHasStartedRunning =>
      if hasStartedRunningNil ls then NotReady
      else
        match transitionToRunning gc w with
        | (Some e, w1) =>
            Break {| signalsNil := signalsNil ls; hasStartedRunningNil := true;
                     result := {| Failed := true; FailureReason := Error e |};
                     stepCancels := stepCancels ls;
                     monitorCancels := monitorCancels ls |} w1
        | (None, w1) =>
            Continue {| signalsNil := signalsNil ls; hasStartedRunningNil := true;
                        result := result ls; stepCancels := stepCancels ls;
                        monitorCancels := monitorCancels ls |} w1
        end
  | RecvSeqComplete err =>
      match err with
      | None => Break ls w
      | Some e =>
          Break {| signalsNil := signalsNil ls;
                   hasStartedRunningNil := hasStartedRunningNil ls;
                   result := {| Failed := true; FailureReason := Error e |};
                   stepCancels := stepCancels ls;
                   monitorCancels := monitorCancels ls |} w
      end
  end.

Fixpoint outerLoop (monitored : bool) (gc : string) (evs : list SelectEvent)
    (ls : LoopVars) (w : World) : option (LoopVars * World) :=
  match evs with
  | [] => None
  | ev :: rest =>
      match selectCase monitored gc ev ls w with
      | NotReady => outerLoop monitored gc rest ls w
      | Continue ls1 w1 => outerLoop monitored gc rest ls1 w1
      | Break ls1 w1 => Some (ls1, w1)
      end
  end.

(** The body of the closure: the loop, then the transition to complete,
    whose error is only logged.  [None] while the loop is blocked. *)
Definition supervise (monitored : bool) (gc : string) (evs : list SelectEvent) (w : World)
  : option (LoopVars * World) :=
  match outerLoop monitored gc evs initialLoopVars w with
  | None => None
  | Some (ls, w1) => Some (ls, snd (transitionToComplete gc (result ls) w1))
  end.

End Store.

End LegacyStore.

(** ** [initializer/initializer.go] *)

Module Initializer.

Import GardenStore.


Definition second : Z := 1000000000.



(** One [if] of [Validate]: an error is logged and [valid] cleared. *)
Definition check (invalid : bool) (action : string) (acc : bool * list string)
  : bool * list string :=
  if invalid then (false, snd acc ++ [action]) else acc.


(** *** [waitForGarden] *)

Definition PingGardenInterval : Z := second.
Definition StalledMetricHeartbeatInterval : Z := 5 * second.

(** What [gardenClient.Ping()] returns, by the cases of the type switch. *)
Inductive PingResult : Type :=
| PingNil
| PingUnrecoverable (err : error)   (* a garden.UnrecoverableError *)
| PingOther (err : error).

(** What the [select] receives: the ping timer, the result of a ping that
    was started, the heartbeat timer with what [clock.Since(pingStart)]
    gives then. *)
Inductive WaitEvent : Type :=
| PingRequestC
| PingResponse (r : PingResult)
| HeartbeatC (since : Z).

Record WaitVars : Type := {
  pingArmed : bool;           (* pingRequest will fire *)
  inFlight : nat;             (* pings started whose result was not received *)
  pingsStarted : nat;
  pingResets : list Z;        (* arguments of pingRequest.Reset *)
  heartbeatResets : list Z;
  stalledDurationSent : list Z
}.

Definition waitInit : WaitVars :=
  {| pingArmed := true; inFlight := 0; pingsStarted := 0; pingResets := [];
     heartbeatResets := []; stalledDurationSent := [] |}.

Inductive WaitStep : Type :=
| WaitContinue (v : WaitVars)
| WaitReturn (err : option error) (v : WaitVars)
| WaitNotReady.

Definition waitCase (ev : WaitEvent) (v : WaitVars) : WaitStep :=
  match ev with
  | PingRequestC =>
      if pingArmed v then
        WaitContinue {| pingArmed := false; inFlight := S (inFlight v);
                        pingsStarted := S (pingsStarted v); pingResets := pingResets v;
                        heartbeatResets := heartbeatResets v;
                        stalledDurationSent := stalledDurationSent v |}
      else WaitNotReady
  | PingResponse r =>
      match inFlight v with
      | O => WaitNotReady
      | S n =>
          match r with
          | PingNil =>
              WaitReturn None
                {| pingArmed := pingArmed v; inFlight := n; pingsStarted := pingsStarted v;
                   pingResets := pingResets v; heartbeatResets := heartbeatResets v;
                   stalledDurationSent := stalledDurationSent v ++ [0%Z] |}
          | PingUnrecoverable err =>
              WaitReturn (Some err)
                {| pingArmed := pingArmed v; inFlight := n; pingsStarted := pingsStarted v;
                   pingResets := pingResets v; heartbeatResets := heartbeatResets v;
                   stalledDurationSent := stalledDurationSent v |}
          | PingOther _ =>
              WaitContinue
                {| pingArmed := true; inFlight := n; pingsStarted := pingsStarted v;
                   pingResets := pingResets v ++ [PingGardenInterval];
                   heartbeatResets := heartbeatResets v;
                   stalledDurationSent := stalledDurationSent v |}
          end
      end
  | HeartbeatC since =>
      WaitContinue
        {| pingArmed := pingArmed v; inFlight := inFlight v; pingsStarted := pingsStarted v;
           pingResets := pingResets v;
           heartbeatResets := heartbeatResets v ++ [StalledMetricHeartbeatInterval];
           stalledDurationSent := stalledDurationSent v ++ [since] |}
  end.

Fixpoint waitLoop (evs : list WaitEvent) (v : WaitVars) : Steps.PerformResult WaitVars :=
  match evs with
  | [] => Steps.Running v
  | ev :: rest =>
      match waitCase ev v with
      | WaitNotReady => waitLoop rest v
      | WaitContinue v1 => waitLoop rest v1
      | WaitReturn err v1 => Steps.Returned err v1
      end
  end.

(** [waitForGarden] over what its [select] receives. *)
Definition waitForGarden (evs : list WaitEvent) : Steps.PerformResult WaitVars :=
  waitLoop evs waitInit.

Definition isRecoverableOnly (ev : WaitEvent) : bool :=
  match ev with
  | PingResponse PingNil => false
  | PingResponse (PingUnrecoverable _) => false
  | _ => true
  end.

(** One ping at a time: a ping is in flight exactly while the ping timer is
    not armed. *)
Definition onePing (v : WaitVars) : Prop :=
  inFlight v = (if pingArmed v then 0 else 1).

(** *** [destroyContainers] *)

(** [gardenClient.Containers(properties)]: the handles of the containers
    that carry all the given properties; [fault] is what a failing call
    returns. *)
Definition gardenClient_Containers (fault : option error) (properties : gmap string string)
    (w : World) : error + list string :=
  match fault with
  | Some e => inl e
  | None =>
      inr (map_to_list (filter (fun kv => properties ⊆ snd kv) (garden w))).*1
  end.

(** Code that may end in [logger.Fatal action err], which writes the log
    line [action] and panics with [err] itself. *)
Inductive MayPanic (A : Type) : Type :=
| Returns (a : A)
| Fatal (action : string) (err : error).
Arguments Returns {A} a.
Arguments Fatal {A} action err.

(** The loop of [destroyContainers]. *)
Fixpoint destroyAll (handles : list string) (w : World) : MayPanic World :=
  match handles with
  | [] => Returns w
  | h :: rest =>
      match gardenClient_Destroy h w with
      | (Some err, _) => Fatal "executor-failed-to-destroy-container" err
      | (None, w1) => destroyAll rest w1
      end
  end.

Section Startup.

(** [containerstore.ContainerOwnerProperty], declared outside [src/]. *)
Variable ContainerOwnerProperty : string.

(** [executorContainers.Containers]. *)
Definition Containers (fault : option error) (owner : string) (w : World)
  : error + list string :=
  gardenClient_Containers fault {[ ContainerOwnerProperty := owner ]} w.

Definition destroyContainers (fault : option error) (owner : string) (w : World)
  : MayPanic World :=
  match Containers fault owner w with
  | inl err => Fatal "executor-failed-to-get-containers" err
  | inr handles => destroyAll handles w
  end.

End Startup.

End Initializer.

(** ** The transformer of [package transformer] *)

Module Transformer.

Import Steps.

Record EnvironmentVariable : Type := {
  Name : string;
  Value : string
}.

Record Hook : Type := {
  Method : string;
  URL : string
}.

(** [models.ExecutorAction], by the cases of the type switch; the models
    are declared outside the repository, so a leaf keeps an opaque
    description beside the fields the transformer reads.  [UnknownAction]
    stands for any other type the action may hold; [typeName] is the name of
    that type. *)
Inductive ExecutorAction : Type :=
| RunAction (model : string) (env : list EnvironmentVariable)
| DownloadAction (model : string)
| UploadAction (model : string)
| FetchResultAction (model : string)
| EmitProgressAction (action : ExecutorAction)
    (startMessage successMessage failureMessage : string)
| TryAction (action : ExecutorAction)
| MonitorAction (action : ExecutorAction) (healthyThreshold unhealthyThreshold : Z)
    (healthyHook unhealthyHook : Hook)
| ParallelAction (actions : list ExecutorAction)
| UnknownAction (typeName : string).

(** An [*http.Request] built for a hook. *)
Record Request : Type := {
  reqMethod : string;
  reqURL : string
}.

(** The steps the constructors return. *)
Inductive Step : Type :=
| run_step (model : string) (env : list EnvironmentVariable)
| download_step (model : string)
| upload_step (model : string)
| fetch_result_step (model : string)
| emit_progress_step (subStep : Step) (startMessage successMessage failureMessage : string)
| try_step (subStep : Step)
| monitor_step (check : Step) (healthyThreshold unhealthyThreshold : Z)
    (healthyHook unhealthyHook : option Request)
| parallel_step (steps : list Step).

Section Convert.

(** [url.ParseRequestURI]. *)
Variable ParseRequestURI : string -> error + string.

(** A hook's request: nil when the hook has no URL. *)
Definition hookRequest (h : Hook) : error + option Request :=
  if decide (URL h = "") then inr None
  else
    match ParseRequestURI (URL h) with
    | inl err => inl err
    | inr u => inr (Some {| reqMethod := Method h; reqURL := u |})
    end.

(** [convertAction].  The panic after the type switch formats [%T] of
    [action], the [models.ExecutorAction] that wraps the action, not of the
    value the switch looked at: its text is the same whatever the type. *)
Fixpoint convertAction (globalEnv : list EnvironmentVariable) (action : ExecutorAction)
  : Go (error + Step) :=
  match action with
  | RunAction model env => Normal (inr (run_step model (globalEnv ++ env)))
  | DownloadAction model => Normal (inr (download_step model))
  | UploadAction model => Normal (inr (upload_step model))
  | FetchResultAction model => Normal (inr (fetch_result_step model))
  | EmitProgressAction inner startMessage successMessage failureMessage =>
      match convertAction globalEnv inner with
      | Normal (inr subStep) =>
          Normal (inr (emit_progress_step subStep startMessage successMessage failureMessage))
      | other => other
      end
  | TryAction inner =>
      match convertAction globalEnv inner with
      | Normal (inr subStep) => Normal (inr (try_step subStep))
      | other => other
      end
  | MonitorAction inner healthyThreshold unhealthyThreshold healthyHook unhealthyHook =>
      match hookRequest healthyHook with
      | inl err => Normal (inl err)
      | inr healthy =>
          match hookRequest unhealthyHook with
          | inl err => Normal (inl err)
          | inr unhealthy =>
              match convertAction globalEnv inner with
              | Normal (inr check) =>
                  Normal (inr (monitor_step check healthyThreshold unhealthyThreshold
                                 healthy unhealthy))
              | other => other
              end
          end
      end
  | ParallelAction actions =>
      match
        (fix convertEach (l : list ExecutorAction) : Go (error + list Step) :=
           match l with
           | [] => Normal (inr [])
           | a :: rest =>
               match convertAction globalEnv a with
               | Normal (inr step) =>
                   match convertEach rest with
                   | Normal (inr steps) => Normal (inr (step :: steps))
                   | other => other
                   end
               | Normal (inl err) => Normal (inl err)
               | Panic msg => Panic msg
               end
           end) actions
      with
      | Normal (inr steps) => Normal (inr (parallel_step steps))
      | Normal (inl err) => Normal (inl err)
      | Panic msg => Panic msg
      end
  | UnknownAction _ => Panic "unknown action: models.ExecutorAction"
  end.

(** [StepsFor]: the actions in order, up to the first error. *)
Fixpoint StepsFor (globalEnv : list EnvironmentVariable) (actions : list ExecutorAction)
  : Go (error + list Step) :=
  match actions with
  | [] => Normal (inr [])
  | a :: rest =>
      match convertAction globalEnv a with
      | Normal (inr step) =>
          match StepsFor globalEnv rest with
          | Normal (inr subSteps) => Normal (inr (step :: subSteps))
          | other => other
          end
      | Normal (inl err) => Normal (inl err)
      | Panic msg => Panic msg
      end
  end.

(** Every hook with a URL in the tree has one that parses. *)
Definition hookParses (h : Hook) : bool :=
  match hookRequest h with
  | inl _ => false
  | inr _ => true
  end.

Fixpoint hooksParse (action : ExecutorAction) : bool :=
  match action with
  | EmitProgressAction inner _ _ _ => hooksParse inner
  | TryAction inner => hooksParse inner
  | MonitorAction inner _ _ healthyHook unhealthyHook =>
      hookParses healthyHook && hookParses unhealthyHook && hooksParse inner
  | ParallelAction actions => forallb hooksParse actions
  | _ => true
  end.

End Convert.

(** The tree holds no action of a type the switch does not know. *)
Fixpoint known (action : ExecutorAction) : bool :=
  match action with
  | EmitProgressAction inner _ _ _ => known inner
  | TryAction inner => known inner
  | MonitorAction inner _ _ _ _ => known inner
  | ParallelAction actions => forallb known actions
  | UnknownAction _ => false
  | _ => true
  end.

(** What the conversion of a tree of known actions gives, by whether its
    hooks parse. *)
Definition converts (ParseRequestURI : string -> error + string)
    (globalEnv : list EnvironmentVariable) (a : ExecutorAction) : Prop :=
  known a = true ->
  if hooksParse ParseRequestURI a
  then exists step, convertAction ParseRequestURI globalEnv a = Normal (inr step)
  else exists err, convertAction ParseRequestURI globalEnv a = Normal (inl err).

(** The environments of the run actions of a tree, left to right, and of
    the run steps of a step tree. *)
Fixpoint actionEnvs (action : ExecutorAction) : list (list EnvironmentVariable) :=
  match action with
  | RunAction _ env => [env]
  | EmitProgressAction inner _ _ _ => actionEnvs inner
  | TryAction inner => actionEnvs inner
  | MonitorAction inner _ _ _ _ => actionEnvs inner
  | ParallelAction actions => flat_map actionEnvs actions
  | _ => []
  end.

Fixpoint stepEnvs (step : Step) : list (list EnvironmentVariable) :=
  match step with
  | run_step _ env => [env]
  | emit_progress_step subStep _ _ _ => stepEnvs subStep
  | try_step subStep => stepEnvs subStep
  | monitor_step check _ _ _ _ => stepEnvs check
  | parallel_step steps => flat_map stepEnvs steps
  | _ => []
  end.

End Transformer.

(** ** More concrete stand-ins *)

Module Samples.

Import GardenStore.

(** The world of [Fixture.started] with a runtime that refuses to destroy
    the container. *)
Definition busy : World :=
  {| garden := garden Fixture.started; lookupFault := ∅; setPropertyFault := ∅;
     destroyFault := {[ "a" := ErrorString "container is busy" ]};
     emitted := []; procs := procs Fixture.started;
     runningProcesses := runningProcesses Fixture.started |}.

(** A runtime that cannot be reached for lookups. *)
Definition unreachable : World :=
  {| garden := {[ "a" := ∅ ]};
     lookupFault := {[ "a" := ErrorString "connection refused" ]};
     setPropertyFault := ∅; destroyFault := ∅; emitted := []; procs := [];
     runningProcesses := ∅ |}.

(** What [Fixture.Stop] leaves when the supervisor is stopped and its step
    tree ends with the cancellation error. *)
Definition stoppedSchedule : list SelectEvent :=
  [RecvSignal; RecvSeqComplete (Some ErrCancelled)].

Definition stopped : World :=
  match Fixture.Stop "a" stoppedSchedule Fixture.started with
  | Some (_, w) => w
  | None => Fixture.started
  end.

(** A runtime with a container of this executor and one of another owner. *)
Definition ContainerOwnerProperty : string := "executor:owner".

Definition shared : World :=
  {| garden := {[ "mine" := {[ ContainerOwnerProperty := "executor" ]};
                  "theirs" := {[ ContainerOwnerProperty := "someone-else" ]} ]};
     lookupFault := ∅; setPropertyFault := ∅; destroyFault := ∅; emitted := [];
     procs := []; runningProcesses := ∅ |}.

Definition monitorWithoutTimeout : Steps.monitorStep :=
  {| Steps.startTimeout := 0;
     Steps.healthyInterval := 60000000;
     Steps.unhealthyInterval := 30000000 |}.

Definition ByteSize (n : Z) : string := "1K".

Definition download : Steps.downloadStep :=
  Steps.NewDownload {| Steps.From := "http://blobs/droplet"; Steps.To := "/app";
                       Steps.CacheKey := "droplet"; Steps.Artifact := "droplet" |}.

Definition downloadRun : Steps.DownloadRun :=
  {| Steps.limiterHasRoom := true; Steps.selectTakesCancel := false;
     Steps.downloadResult := inr {| Steps.isCachedFile := true; Steps.statResult := inr 1024%Z |};
     Steps.cancelledDuringDownload := false; Steps.streamInResult := None;
     Steps.cancelledDuringStreamIn := false |}.

Definition ParseRequestURI (s : string) : option error :=
  if String.prefix "http://" s then None else Some (ErrorString "invalid URI for request").

Definition upload : Steps.UploadStep :=
  {| Steps.uploadFrom := "/app/result"; Steps.uploadTo := "http://blobs/result" |}.

Definition uploadRun : Upload.UploadRun :=
  {| Upload.acquireResult := None; Upload.tempDirResult := inr "/tmp/upload1";
     Upload.streamOutResult := None; Upload.tarNextResult := None;
     Upload.tempFileResult := inr "/tmp/compressed1"; Upload.copyResult := None;
     Upload.uploadResult := inr 1024%Z |}.


Definition retries : list Initializer.WaitEvent :=
  [Initializer.PingRequestC;
   Initializer.PingResponse (Initializer.PingOther (ErrorString "connection refused"));
   Initializer.HeartbeatC 5000000000;
   Initializer.PingRequestC].

Definition parseURL (s : string) : error + string :=
  if String.prefix "http://" s then inr s else inl (ErrorString "invalid URI for request").

Definition globalEnv : list Transformer.EnvironmentVariable :=
  [{| Transformer.Name := "HOME"; Transformer.Value := "/home/vcap" |}].

Definition ownEnv : list Transformer.EnvironmentVariable :=
  [{| Transformer.Name := "PORT"; Transformer.Value := "8080" |}].

Definition monitored : Transformer.ExecutorAction :=
  Transformer.MonitorAction (Transformer.RunAction "check" ownEnv) 1 1
    {| Transformer.Method := "PUT"; Transformer.URL := "http://hooks/healthy" |}
    {| Transformer.Method := "PUT"; Transformer.URL := "" |}.

Definition badHook : Transformer.ExecutorAction :=
  Transformer.MonitorAction (Transformer.RunAction "check" ownEnv) 1 1
    {| Transformer.Method := "PUT"; Transformer.URL := "not a url" |}
    {| Transformer.Method := "PUT"; Transformer.URL := "" |}.

End Samples.


(** * Properties *)

(** ** The container store and its supervisor *)

Section GardenStoreFacts.

Import GardenStore.

Variable ContainerStateProperty ContainerResultProperty : string.
Variable stateString : State -> string.
Variable Error : error -> string.
Variable jsonMarshal : ContainerRunResult -> error + string.
Variable Garden2Executor : string -> gmap string string -> error + Container.
Variable healthyMonitoringInterval unhealthyMonitoringInterval : Z.

Local Abbreviation transitionToRunning :=
  (transitionToRunning ContainerStateProperty stateString Garden2Executor).
Local Abbreviation transitionToComplete :=
  (transitionToComplete ContainerStateProperty ContainerResultProperty stateString
     jsonMarshal Garden2Executor).
Local Abbreviation selectCase :=
  (selectCase ContainerStateProperty stateString Error Garden2Executor).
Local Abbreviation outerLoop :=
  (outerLoop ContainerStateProperty stateString Error Garden2Executor).
Local Abbreviation supervise :=
  (supervise ContainerStateProperty ContainerResultProperty stateString Error
     jsonMarshal Garden2Executor).
Local Abbreviation advance :=
  (advance ContainerStateProperty ContainerResultProperty stateString Error
     jsonMarshal Garden2Executor).
Local Abbreviation Wait :=
  (Wait ContainerStateProperty ContainerResultProperty stateString Error
     jsonMarshal Garden2Executor).
Local Abbreviation Stop :=
  (Stop ContainerStateProperty ContainerResultProperty stateString Error
     jsonMarshal Garden2Executor).
Local Abbreviation Run :=
  (Run ContainerStateProperty ContainerResultProperty stateString Error
     jsonMarshal Garden2Executor healthyMonitoringInterval unhealthyMonitoringInterval).

Lemma sameStore_refl w : sameStore w w.
Proof. by split. Qed.

Lemma sameStore_trans w1 w2 w3 : sameStore w1 w2 -> sameStore w2 w3 -> sameStore w1 w3.
Proof. intros [? ?] [? ?]; split; congruence. Qed.

Lemma SetProperty_sameStore h k v w : sameStore w (snd (SetProperty h k v w)).
Proof.
  unfold SetProperty.
  destruct (setPropertyFault w !! (h, k)); [apply sameStore_refl|].
  destruct (garden w !! h); simpl; by split.
Qed.

Lemma SetProperty_ok h k v w props :
  setPropertyFault w !! (h, k) = None ->
  garden w !! h = Some props ->
  SetProperty h k v w = (None, with_garden (<[h := <[k := v]> props]> (garden w)) w).
Proof. intros Hf Hg. unfold SetProperty. by rewrite Hf, Hg. Qed.

Lemma transitionToRunning_sameStore gc w : sameStore w (snd (transitionToRunning gc w)).
Proof.
  unfold GardenStore.transitionToRunning.
  pose proof (SetProperty_sameStore gc ContainerStateProperty (stateString StateRunning) w) as H.
  destruct (SetProperty gc ContainerStateProperty (stateString StateRunning) w) as [[e|] w1];
    simpl in *; [done|].
  destruct (exchange Garden2Executor gc w1); simpl; [done|].
  destruct H; by split.
Qed.

Lemma transitionToComplete_sameStore gc r w :
  sameStore w (snd (transitionToComplete gc r w)).
Proof.
  unfold GardenStore.transitionToComplete.
  destruct (jsonMarshal r) as [e|json]; [apply sameStore_refl|].
  pose proof (SetProperty_sameStore gc ContainerResultProperty json w) as H1.
  destruct (SetProperty gc ContainerResultProperty json w) as [[e|] w1]; simpl in *; [done|].
  pose proof (SetProperty_sameStore gc ContainerStateProperty (stateString StateCompleted) w1) as H2.
  destruct (SetProperty gc ContainerStateProperty (stateString StateCompleted) w1)
    as [[e|] w2]; simpl in *; [by eapply sameStore_trans|].
  destruct (exchange Garden2Executor gc w2); simpl; [by eapply sameStore_trans|].
  destruct H1, H2; split; simpl; congruence.
Qed.

(** When nothing fails, [transitionToComplete] writes the result and then
    the state on the runtime container and emits the complete event for
    the container the exchanger reads back. *)
Lemma transitionToComplete_ok gc r w json props c :
  jsonMarshal r = inr json ->
  garden w !! gc = Some props ->
  setPropertyFault w !! (gc, ContainerResultProperty) = None ->
  setPropertyFault w !! (gc, ContainerStateProperty) = None ->
  Garden2Executor gc
    (<[ContainerStateProperty := stateString StateCompleted]>
       (<[ContainerResultProperty := json]> props)) = inr c ->
  fst (transitionToComplete gc r w) = None /\
  garden (snd (transitionToComplete gc r w)) !! gc =
    Some (<[ContainerStateProperty := stateString StateCompleted]>
            (<[ContainerResultProperty := json]> props)) /\
  emitted (snd (transitionToComplete gc r w)) = emitted w ++ [ContainerCompleteEvent c].
Proof.
  intros Hj Hg Hf1 Hf2 Hx.
  unfold GardenStore.transitionToComplete. rewrite Hj.
  rewrite (SetProperty_ok _ _ _ _ props Hf1 Hg).
  erewrite SetProperty_ok; [|exact Hf2|simpl; apply lookup_insert_eq].
  unfold exchange; simpl. rewrite lookup_insert_eq, Hx. simpl.
  repeat split. by rewrite lookup_insert_eq.
Qed.

Lemma selectCase_sameStore gc ev ls w :
  match selectCase gc ev ls w with
  | Continue _ w1 | Break _ w1 => sameStore w w1
  | NotReady => True
  end.
Proof.
  destruct ev as [| |[e|]]; simpl.
  - destruct (signalsNil ls); [done|apply sameStore_refl].
  - destruct (hasStartedRunningNil ls); [done|].
    pose proof (transitionToRunning_sameStore gc w) as H.
    by destruct (transitionToRunning gc w) as [[e|] w1].
  - destruct (toldToStop ls); apply sameStore_refl.
  - apply sameStore_refl.
Qed.

Lemma outerLoop_sameStore gc evs : forall ls w,
  match outerLoop gc evs ls w with
  | Blocked _ w1 | Broke _ w1 => sameStore w w1
  end.
Proof.
  induction evs as [|ev evs IH]; intros ls w; simpl; [apply sameStore_refl|].
  pose proof (selectCase_sameStore gc ev ls w) as H.
  destruct (selectCase gc ev ls w) as [ls1 w1|ls1 w1|]; [|done|apply IH].
  specialize (IH ls1 w1).
  destruct (outerLoop gc evs ls1 w1); by eapply sameStore_trans.
Qed.

(** While the loop stays in its [select], the result is untouched; a
    signal, once received, stays recorded. *)
Lemma selectCase_Continue gc ev ls w ls1 w1 :
  selectCase gc ev ls w = Continue ls1 w1 ->
  result ls1 = result ls /\
  (toldToStop ls = true -> toldToStop ls1 = true) /\
  (ev = RecvSignal -> toldToStop ls1 = true) /\
  (signalsNil ls = true -> signalsNil ls1 = true).
Proof.
  destruct ev as [| |[e|]]; simpl.
  - destruct (signalsNil ls); [done|]. intros [= <- <-]; simpl. by repeat split.
  - destruct (hasStartedRunningNil ls); [done|].
    destruct (transitionToRunning gc w) as [[e|] w2]; [done|].
    intros [= <- <-]; simpl. by repeat split.
  - by destruct (toldToStop ls).
  - done.
Qed.

Lemma selectCase_NotReady_signal gc ls w :
  selectCase gc RecvSignal ls w = NotReady -> signalsNil ls = true.
Proof. simpl. by destruct (signalsNil ls). Qed.

Lemma outerLoop_Blocked gc evs : forall ls w ls1 w1,
  outerLoop gc evs ls w = Blocked ls1 w1 ->
  (signalsNil ls = true -> toldToStop ls = true) ->
  result ls1 = result ls /\
  (toldToStop ls = true -> toldToStop ls1 = true) /\
  (In RecvSignal evs -> toldToStop ls1 = true).
Proof.
  induction evs as [|ev evs IH]; intros ls w ls1 w1; simpl.
  - intros [= <- <-] _. by repeat split.
  - intros H Hinv.
    destruct (selectCase gc ev ls w) as [ls2 w2|ls2 w2|] eqn:Hc; [|done|].
    + destruct (selectCase_Continue _ _ _ _ _ _ Hc) as (Hr & Ht & Hs & Hn).
      destruct (IH _ _ _ _ H) as (Hr' & Ht' & Hi').
      { intros Hn2. destruct (signalsNil ls) eqn:E; [auto|].
        destruct ev as [| |[e|]]; simpl in Hc; rewrite ?E in Hc.
        - by apply Hs.
        - destruct (hasStartedRunningNil ls); [done|].
          destruct (transitionToRunning gc w) as [[e|] w3]; [done|].
          injection Hc as <- <-. simpl in Hn2. congruence.
        - by destruct (toldToStop ls).
        - done. }
      repeat split; [congruence|auto|].
      intros [->|Hin]; auto.
    + destruct (IH _ _ _ _ H Hinv) as (Hr' & Ht' & Hi').
      repeat split; [done|done|].
      intros [->|Hin]; auto.
      apply Ht', Hinv. by eapply selectCase_NotReady_signal.
Qed.

Lemma outerLoop_app gc pre post : forall ls w,
  outerLoop gc (pre ++ post) ls w =
  match outerLoop gc pre ls w with
  | Blocked ls1 w1 => outerLoop gc post ls1 w1
  | Broke ls1 w1 => Broke ls1 w1
  end.
Proof.
  induction pre as [|ev pre IH]; intros ls w; simpl; [done|].
  destruct (selectCase gc ev ls w); auto.
Qed.

Lemma advance_runningProcesses pid evs w :
  runningProcesses (advance pid evs w) = runningProcesses w.
Proof.
  unfold GardenStore.advance.
  destruct (procs w !! pid) as [p|]; [|done].
  destruct (p_exited p); [done|].
  pose proof (outerLoop_sameStore (p_guid p) (List.filter (ready p) evs) (p_loop p) w) as H.
  destruct (outerLoop (p_guid p) (List.filter (ready p) evs) (p_loop p) w) as [ls w1|ls w1];
    simpl.
  - by destruct H.
  - destruct (transitionToComplete_sameStore (p_guid p) (result ls) w1) as [_ H2].
    destruct H as [_ H]. congruence.
Qed.

Lemma freeStepProcess_registry guid w :
  runningProcesses (snd (freeStepProcess guid w)) !! guid = None.
Proof.
  unfold freeStepProcess.
  destruct (runningProcesses w !! guid) eqn:E; simpl; [apply lookup_delete_eq|done].
Qed.

(** C10. [Stop] returns [ErrContainerNotFound] whenever no step process is
    registered under the guid, whatever the runtime holds for that guid and
    whatever the schedule.  This is the case once [freeStepProcess] has run
    for the guid, so while a first [Stop] is still waiting; and whenever a
    [Stop] of a guid has returned, a further [Stop] of the same guid returns
    [ErrContainerNotFound]. *)
Theorem Stop_without_process_not_found :
  (forall guid evs w,
      runningProcesses w !! guid = None ->
      Stop guid evs w = Some (Some ErrContainerNotFound, w)) /\
  (forall guid evs w,
      Stop guid evs (snd (freeStepProcess guid w)) =
        Some (Some ErrContainerNotFound, snd (freeStepProcess guid w))) /\
  (forall guid evs evs' w r w1,
      Stop guid evs w = Some (r, w1) ->
      Stop guid evs' w1 = Some (Some ErrContainerNotFound, w1)).
Proof.
  assert (Hfirst : forall guid evs w,
             runningProcesses w !! guid = None ->
             Stop guid evs w = Some (Some ErrContainerNotFound, w)).
  { intros guid evs w H. unfold GardenStore.Stop, freeStepProcess. by rewrite H. }
  split; [exact Hfirst|split].
  { intros guid evs w. apply Hfirst, freeStepProcess_registry. }
  intros guid evs evs' w r w1 H. apply Hfirst.
  unfold GardenStore.Stop in H.
  pose proof (freeStepProcess_registry guid w) as Hreg.
  destruct (freeStepProcess guid w) as [[pid|] w0] eqn:Hfree; simpl in Hreg.
  - unfold GardenStore.Wait in H.
    destruct (procs (advance pid evs w0) !! pid) as [p|]; [|done].
    destruct (p_exited p); [|done].
    injection H as _ <-. by rewrite advance_runningProcesses.
  - by injection H as _ <-.
Qed.

(** C1 (as amended).  For a container whose state is not [Created] and
    which the runtime lookup finds, [Run] returns [ErrInvalidTransition] and
    starts no supervisor: the process table and the registry are as before.
    It does act on the runtime, though: it runs [transitionToComplete] with a
    failed result whose reason is the text of [ErrInvalidTransition], so that,
    when no call fails, the result and the state [Completed] are written on
    the runtime container and a complete event is emitted. *)
Theorem Run_not_created_completes_container container w gc :
  lookup (Guid container) w = inr gc ->
  CState container <> StateCreated ->
  fst (Run container w) = Some ErrInvalidTransition /\
  sameStore w (snd (Run container w)) /\
  snd (Run container w) =
    snd (transitionToComplete gc
           {| Failed := true; FailureReason := Error ErrInvalidTransition |} w) /\
  (forall json props c,
      jsonMarshal {| Failed := true; FailureReason := Error ErrInvalidTransition |}
        = inr json ->
      garden w !! gc = Some props ->
      setPropertyFault w !! (gc, ContainerResultProperty) = None ->
      setPropertyFault w !! (gc, ContainerStateProperty) = None ->
      Garden2Executor gc
        (<[ContainerStateProperty := stateString StateCompleted]>
           (<[ContainerResultProperty := json]> props)) = inr c ->
      garden (snd (Run container w)) !! gc =
        Some (<[ContainerStateProperty := stateString StateCompleted]>
                (<[ContainerResultProperty := json]> props)) /\
      emitted (snd (Run container w)) = emitted w ++ [ContainerCompleteEvent c]).
Proof.
  intros Hl Hs.
  assert (HR : Run container w =
               (Some ErrInvalidTransition,
                snd (transitionToComplete gc
                       {| Failed := true; FailureReason := Error ErrInvalidTransition |} w))).
  { unfold GardenStore.Run. rewrite Hl. by destruct (decide (CState container = StateCreated)). }
  rewrite HR; simpl. repeat split.
  - apply transitionToComplete_sameStore.
  - apply transitionToComplete_sameStore.
  - by eapply transitionToComplete_ok.
  - by eapply transitionToComplete_ok.
Qed.

(** C2 (as amended).  Let the loop still be in its [select] after the
    receives [pre], one of which was the stop signal, and let the step tree
    then complete with an error.  The supervisor leaves the loop with
    [toldToStop] set and the result untouched, which is the zero value:
    [Failed] is false and the reason is the empty string.  That result is
    what [transitionToComplete] gets, so that, when no call fails, the
    complete event carries the container the exchanger reads back from a
    runtime container whose result property is the encoding of that value. *)
Theorem stopped_supervisor_records_zero_result gc pre e rest w ls1 w1 :
  outerLoop gc pre initialLoopState w = Blocked ls1 w1 ->
  In RecvSignal pre ->
  supervise gc (pre ++ RecvSeqComplete (Some e) :: rest) w =
    Some (ls1, snd (transitionToComplete gc zeroRunResult w1)) /\
  toldToStop ls1 = true /\
  result ls1 = {| Failed := false; FailureReason := "" |} /\
  (forall json props c,
      jsonMarshal zeroRunResult = inr json ->
      garden w1 !! gc = Some props ->
      setPropertyFault w1 !! (gc, ContainerResultProperty) = None ->
      setPropertyFault w1 !! (gc, ContainerStateProperty) = None ->
      Garden2Executor gc
        (<[ContainerStateProperty := stateString StateCompleted]>
           (<[ContainerResultProperty := json]> props)) = inr c ->
      emitted (snd (transitionToComplete gc zeroRunResult w1)) =
        emitted w1 ++ [ContainerCompleteEvent c]).
Proof.
  intros Hpre Hin.
  destruct (outerLoop_Blocked _ _ _ _ _ _ Hpre) as (Hr & _ & Ht); [done|].
  specialize (Ht Hin). simpl in Hr.
  repeat split; [|done|done|].
  - unfold GardenStore.supervise, superviseFrom.
    rewrite outerLoop_app, Hpre. simpl. rewrite Ht. by rewrite Hr.
  - intros json props c Hj Hg Hf1 Hf2 Hx. by eapply transitionToComplete_ok.
Qed.

(** C4 (as amended).  For a container with a registered supervisor,
    [Destroy] removes the registry entry and signals the supervisor, then has
    the runtime destroy the container.  It does not wait: no schedule of the
    supervisor enters into it, and the supervisor is as exited afterwards as
    it was before. *)
Theorem Destroy_signals_and_destroys_without_waiting guid w pid p :
  runningProcesses w !! guid = Some pid ->
  procs w !! pid = Some p ->
  runningProcesses (snd (Destroy guid w)) = delete guid (runningProcesses w) /\
  procs (snd (Destroy guid w)) !! pid = Some (signal_process p) /\
  p_signalled (signal_process p) = true /\
  p_exited (signal_process p) = p_exited p /\
  (destroyFault w !! guid = None ->
   fst (Destroy guid w) = None /\
   garden (snd (Destroy guid w)) = delete guid (garden w)).
Proof.
  intros Hreg Hp.
  unfold Destroy, freeStepProcess, gardenClient_Destroy. rewrite Hreg. simpl.
  assert (Hprocs : alter signal_process pid (procs w) !! pid = Some (signal_process p)).
  { by rewrite list_lookup_alter_eq, Hp. }
  destruct (destroyFault w !! guid) as [e|] eqn:Hf.
  - destruct e; simpl; repeat split; done.
  - destruct (garden w !! guid) as [props|] eqn:Hg; simpl; repeat split; try done.
    symmetry. by apply delete_id.
Qed.

End GardenStoreFacts.

(** *** The store on a runtime that holds one container *)

Module GardenStoreExamples.

Import GardenStore.
Import Fixture(running, created, w0, started).

(** C1, counterexample.  The container is [Running], not [Created]; [Run]
    returns [ErrInvalidTransition], yet the runtime container, which had no
    state property, now says [completed] and carries a failed result, and a
    complete event has been emitted. *)
Lemma Run_not_created_has_side_effects :
  CState running <> StateCreated /\
  fst (Fixture.Run running w0) = Some ErrInvalidTransition /\
  garden w0 !! "a" ≫= (.!! Fixture.ContainerStateProperty) = None /\
  garden (snd (Fixture.Run running w0)) !! "a" ≫= (.!! Fixture.ContainerStateProperty)
    = Some "completed" /\
  garden (snd (Fixture.Run running w0)) !! "a" ≫= (.!! Fixture.ContainerResultProperty)
    = Some "failed;invalid state transition" /\
  emitted w0 = [] /\
  emitted (snd (Fixture.Run running w0)) =
    [ContainerCompleteEvent
       {| Guid := "a"; MemoryMB := 0; DiskMB := 0; AllocatedAt := 0;
          CState := StateCompleted; Setup := None; MainAction := "run";
          Monitor := None; StartTimeout := 0;
          RunResult := {| Failed := true; FailureReason := "invalid state transition" |} |}].
Proof. repeat split; try discriminate; vm_compute; reflexivity. Qed.

Lemma Run_not_created_witness :
  fst (Fixture.Run running w0) = Some ErrInvalidTransition /\
  sameStore w0 (snd (Fixture.Run running w0)).
Proof.
  assert (Hl : lookup (Guid running) w0 = inr "a") by (vm_compute; reflexivity).
  assert (Hs : CState running <> StateCreated) by (simpl; discriminate).
  pose proof (Run_not_created_completes_container
                Fixture.ContainerStateProperty Fixture.ContainerResultProperty
                Fixture.stateString Fixture.Error Fixture.jsonMarshal
                Fixture.Garden2Executor 1000000000 500000000
                running w0 "a" Hl Hs) as H.
  split; apply H.
Defined.

(** C2, counterexample.  The supervisor receives the stop signal, then the
    step tree completes with the cancellation error.  The recorded result has
    [Failed] false, but its reason is the empty string, not "stopped", and
    that is the result the complete event carries. *)
Lemma stopped_supervisor_reason_is_empty :
  fst <$> Fixture.supervise "a" [RecvSignal; RecvSeqComplete (Some ErrCancelled)] w0 =
    Some {| signalsNil := true; hasStartedRunningNil := false; toldToStop := true;
            result := {| Failed := false; FailureReason := "" |}; cancelCalls := 1 |} /\
  "" <> "stopped" /\
  (emitted ∘ snd) <$> Fixture.supervise "a" [RecvSignal; RecvSeqComplete (Some ErrCancelled)] w0 =
    Some [ContainerCompleteEvent
            {| Guid := "a"; MemoryMB := 0; DiskMB := 0; AllocatedAt := 0;
               CState := StateCompleted; Setup := None; MainAction := "run";
               Monitor := None; StartTimeout := 0;
               RunResult := {| Failed := false; FailureReason := "" |} |}].
Proof. repeat split; try discriminate; vm_compute; reflexivity. Qed.

Lemma stopped_supervisor_witness :
  Fixture.supervise "a" ([RecvSignal] ++ [RecvSeqComplete (Some ErrCancelled)]) w0 =
    Some ({| signalsNil := true; hasStartedRunningNil := false; toldToStop := true;
             result := zeroRunResult; cancelCalls := 1 |},
          snd (transitionToComplete Fixture.ContainerStateProperty
                 Fixture.ContainerResultProperty Fixture.stateString
                 Fixture.jsonMarshal Fixture.Garden2Executor "a" zeroRunResult w0)).
Proof.
  assert (Hpre : outerLoop Fixture.ContainerStateProperty Fixture.stateString Fixture.Error
                   Fixture.Garden2Executor "a" [RecvSignal] initialLoopState w0 =
                 Blocked {| signalsNil := true; hasStartedRunningNil := false;
                            toldToStop := true; result := zeroRunResult;
                            cancelCalls := 1 |} w0)
    by (vm_compute; reflexivity).
  assert (Hin : In RecvSignal [RecvSignal]) by (simpl; left; reflexivity).
  exact (proj1 (stopped_supervisor_records_zero_result
                  Fixture.ContainerStateProperty Fixture.ContainerResultProperty
                  Fixture.stateString Fixture.Error Fixture.jsonMarshal
                  Fixture.Garden2Executor "a" [RecvSignal] ErrCancelled [] w0 _ _ Hpre Hin)).
Defined.

(** C4, counterexample.  After [Run] of a created container its supervisor
    is registered and running.  [Destroy] returns nil and the runtime no
    longer holds the container, while the supervisor, though signalled, has
    not exited. *)
Lemma Destroy_does_not_await_supervisor :
  runningProcesses started !! "a" = Some 0 /\
  p_exited <$> procs started !! 0 = Some false /\
  fst (Destroy "a" started) = None /\
  garden started !! "a" = Some ∅ /\
  garden (snd (Destroy "a" started)) !! "a" = None /\
  p_signalled <$> procs (snd (Destroy "a" started)) !! 0 = Some true /\
  p_exited <$> procs (snd (Destroy "a" started)) !! 0 = Some false.
Proof. repeat split; vm_compute; reflexivity. Qed.

Lemma Destroy_witness :
  runningProcesses (snd (Destroy "a" started)) = delete "a" (runningProcesses started) /\
  p_exited <$> procs (snd (Destroy "a" started)) !! 0 = Some false.
Proof.
  assert (Hreg : runningProcesses started !! "a" = Some 0) by (vm_compute; reflexivity).
  assert (Hp : procs started !! 0 =
               Some {| p_guid := "a"; p_step := StepFor "run"; p_hasStartedRunning := 1;
                       p_loop := initialLoopState; p_signalled := false;
                       p_exited := false |}) by (vm_compute; reflexivity).
  destruct (Destroy_signals_and_destroys_without_waiting "a" started 0 _ Hreg Hp)
    as (H1 & H2 & _).
  split; [exact H1|]. rewrite H2. reflexivity.
Defined.

(** C10, on the example: the runtime holds the container but [Run] was never
    invoked; and a second [Stop] after a first one that returned. *)
Lemma Stop_not_found_witness :
  Fixture.Stop "a" [] w0 = Some (Some ErrContainerNotFound, w0) /\
  (fst <$> Fixture.Stop "a" [RecvSignal; RecvSeqComplete (Some ErrCancelled)] started
     = Some None /\
   forall w1,
     snd <$> Fixture.Stop "a" [RecvSignal; RecvSeqComplete (Some ErrCancelled)] started
       = Some w1 ->
     Fixture.Stop "a" [] w1 = Some (Some ErrContainerNotFound, w1)).
Proof.
  destruct (Stop_without_process_not_found
              Fixture.ContainerStateProperty Fixture.ContainerResultProperty
              Fixture.stateString Fixture.Error Fixture.jsonMarshal
              Fixture.Garden2Executor) as (Hfirst & _ & Hsecond).
  split; [|split].
  - apply Hfirst. vm_compute; reflexivity.
  - vm_compute; reflexivity.
  - intros w1 Hw1.
    destruct (Fixture.Stop "a" [RecvSignal; RecvSeqComplete (Some ErrCancelled)] started)
      as [[r w']|] eqn:E; [|discriminate].
    injection Hw1 as ->. exact (Hsecond _ _ [] _ _ _ E).
Defined.

(** A stop during the run: the created container is started, [Stop] signals
    its supervisor, the step tree ends with the cancellation error, and
    [Stop] returns nil.  The runtime container then says [completed], with
    the encoding of the zero result. *)
Example stop_during_run :
  (fun r => (fst r,
             garden (snd r) !! "a" ≫= (.!! Fixture.ContainerStateProperty),
             garden (snd r) !! "a" ≫= (.!! Fixture.ContainerResultProperty),
             p_exited <$> procs (snd r) !! 0))
    <$> Fixture.Stop "a" [RecvHasStartedRunning; RecvSignal;
                          RecvSeqComplete (Some ErrCancelled)] started
  = Some (None, Some "completed", Some "ok;", Some true).
Proof. vm_compute; reflexivity. Qed.

End GardenStoreExamples.

(** ** The periodic monitor *)

Module MonitorFacts.

Import Steps.








(** Ticks up to the deadline of a step that is not healthy yet: a failing
    check only rearms the timer; the first tick after the deadline ends the
    step with the error of the check made at that tick. *)
Lemma monitorLoop_times_out step deadline now e later early : forall v,
  healthy v = false -> startBy v = Some deadline ->
  Forall (fun tick => (fst tick <= deadline)%Z) early ->
  (deadline < now)%Z ->
  exists v1,
    monitorLoop step (map failing (early ++ (now, e) :: later)) v = Returned (Some e) v1 /\
    healthy v1 = false /\ sent v1 = sent v /\
    stderr v1 = stderr v ++ [StderrTimeoutMessage (startTimeout step)].
Proof.
  induction early as [|[t e0] early IH]; intros v Hh Hb Hearly Hnow; simpl.
  - rewrite Hh. simpl. rewrite Hb.
    destruct (Z.ltb_spec deadline now); [|lia].
    rewrite Hh. simpl. eexists; repeat split; done.
  - inversion Hearly as [|? ? Ht Hrest]; subst. simpl in Ht.
    rewrite Hh. simpl. rewrite Hb.
    destruct (Z.ltb_spec deadline t); [lia|].
    destruct (IH (timerReset v)) as (v1 & H1 & H2 & H3 & H4); try done.
    exists v1. by repeat split.
Qed.

(** C7 (as amended).  The periodic monitor with positive intervals and a
    start timeout [T > 0], whose check fails at every tick: at the first tick
    that comes strictly after [start + T], [Perform] returns.  What it returns
    is the error of the check made at that tick, as the check returned it; the
    timeout message has been written to stderr and no token has been sent.
    The long-running monitor whose timer fires before the readiness check has
    returned: [Perform] cancels the check and returns an emittable error that
    wraps what the check then returns; the timeout message has been written
    and no token has been sent. *)
Theorem monitor_start_timeout :
  (forall step start early now e later,
      (0 < healthyInterval step)%Z ->
      (0 < unhealthyInterval step)%Z ->
      (0 < startTimeout step)%Z ->
      Forall (fun tick => (fst tick <= start + startTimeout step)%Z) early ->
      (start + startTimeout step < now)%Z ->
      exists v,
        monitorStep_Perform step start (map failing (early ++ (now, e) :: later))
          = Returned (Some e) v /\
        healthy v = false /\ sent v = 0 /\
        stderr v = [StderrTimeoutMessage (startTimeout step)]) /\
  (forall healthcheckNowUnhealthy T err out liveness,
      exists v,
        longRunningMonitorStep_Perform healthcheckNowUnhealthy T
          (Some (ReadinessTimerC err out)) liveness
          = Returned (Some (EmittableError err healthcheckNowUnhealthy out)) v /\
        lr_sent v = 0 /\ lr_cancelled v = 1 /\
        In (StderrTimeoutMessage T) (lr_log v)).
Proof.
  split.
  - intros step start early now e later Hh Hu Ht Hearly Hnow.
    unfold monitorStep_Perform.
    destruct (Z.leb_spec (healthyInterval step) 0); [lia|].
    destruct (Z.leb_spec (unhealthyInterval step) 0); [lia|].
    destruct (monitorLoop_times_out step (start + startTimeout step) now e later early
                (monitorInit step start)) as (v1 & H1 & H2 & H3 & H4); try done.
    { unfold monitorInit; simpl. by destruct (Z.ltb_spec 0 (startTimeout step)); [|lia]. }
    exists v1. by repeat split.
  - intros msg T err out liveness. eexists. simpl. repeat split. simpl. auto.
Qed.

End MonitorFacts.

Module MonitorExamples.

Import Steps.
Import Fixture(monitor, disaster).

(** C7, counterexample.  The check of the periodic monitor fails with a
    plain error at every tick, 30ms apart, for a start timeout of 100ms.  At
    the tick of 120ms [Perform] returns, without having sent a token; but
    what it returns is the plain error of the check, not an emittable
    error. *)
Lemma monitor_timeout_returns_the_check_error :
  monitorStep_Perform monitor 0
    [TimerC 30000000 (Some disaster); TimerC 60000000 (Some disaster);
     TimerC 90000000 (Some disaster); TimerC 120000000 (Some disaster)]
  = Returned (Some (ErrorString "oh no!"))
      {| healthy := false; interval := 30000000; startBy := Some 100000000%Z;
         sent := 0; stderr := [StderrTimeoutMessage 100000000];
         resets := [30000000; 30000000; 30000000]%Z |} /\
  (forall wrapped msg detail, ErrorString "oh no!" <> EmittableError wrapped msg detail).
Proof. split; [vm_compute; reflexivity|discriminate]. Qed.

Lemma monitor_start_timeout_witness :
  exists v,
    monitorStep_Perform monitor 0
      (map failing ([(30000000, disaster); (60000000, disaster); (90000000, disaster)]
                      ++ (120000000, disaster) :: []))%Z
      = Returned (Some disaster) v /\
    healthy v = false /\ sent v = 0 /\
    stderr v = [StderrTimeoutMessage 100000000].
Proof.
  apply (proj1 MonitorFacts.monitor_start_timeout monitor 0%Z
           [(30000000, disaster); (60000000, disaster); (90000000, disaster)]%Z
           120000000%Z disaster []).
  - simpl; lia.
  - simpl; lia.
  - simpl; lia.
  - repeat constructor; simpl; lia.
  - simpl; lia.
Defined.


(** In the long-running monitor the value received from the readiness
    check is dropped: a check that returns an error before the timer fires
    is followed by the token all the same. *)
Remark longRunning_readiness_result_is_dropped msg T e :
  longRunningMonitorStep_Perform msg T (Some (ReadinessErrCh (Some e))) None
  = Running {| lr_sent := 1; lr_cancelled := 0;
               lr_log := [Stdout ("Starting health monitoring of container" +:+ nl);
                          Stdout ("Container became healthy" +:+ nl)] |}.
Proof. reflexivity. Qed.

End MonitorExamples.

(** ** The download step *)

Module DownloadFacts.

Import Steps.

(** C8, on the download step.  The first [Cancel] closes the cancellation
    channel, so that a [Perform] that finds the rate limiter full returns the
    cancellation error.  [Perform] leaves the step as it is, so whether or
    not it runs in between, a second [Cancel] closes the closed channel
    again, and that panics.  The upload step's [Cancel], which does nothing,
    can be repeated at will. *)
Theorem downloadStep_Cancel_twice_panics m :
  downloadStep_Cancel (NewDownload m) = Normal {| model := m; cancelChan := ChanClosed |} /\
  (forall ByteSize run,
      limiterHasRoom run = false ->
      downloadStep_Perform ByteSize {| model := m; cancelChan := ChanClosed |} run
        = Some {| returned := Some CancelError; emittedLines := []; fileClosed := false |}) /\
  downloadStep_Cancel {| model := m; cancelChan := ChanClosed |}
    = Panic "close of closed channel" /\
  (forall u, UploadStep_Cancel u = Normal u).
Proof.
  repeat split.
  intros ByteSize run Hroom. unfold downloadStep_Perform. simpl. by rewrite Hroom.
Qed.

End DownloadFacts.

(** ** The combinators *)

Module CombinatorFacts.

Import Steps.

Section Trees.
Context {S : Type}.

(** C5.  In a serial step of [a], [b] and [c] where [a] succeeds and [b]
    fails with [e]: the calls made on the children are the perform of [a],
    the perform of [b] and the cleanup of [a], in this order, so [c] is
    neither performed nor cleaned up; the outcome is [e]; and the state is
    the one [b] left, cleaned up by [a]. *)
Theorem serial_failure_in_the_middle (a b c : Step S) (s s1 s2 : S) (e : error) :
  Perform a s = (None, s1) ->
  Perform b s1 = (Some e, s2) ->
  serialStep_Perform [recorded 0 a; recorded 1 b; recorded 2 c] (s, [])
  = (Some e, (Cleanup a s2, [PerformCall 0; PerformCall 1; CleanupCall 0])).
Proof.
  intros Ha Hb. unfold serialStep_Perform. simpl. rewrite Ha. simpl. by rewrite Hb.
Qed.

(** C6.  In a parallel step of [a] and [b] where [a] has failed with [e]
    and [b] has not finished, [Perform] has not returned; once [b] has
    finished, whatever its outcome, [Perform] returns [e], the first error
    received. *)
Theorem parallel_waits_for_the_rest (a b : Step S) (s s1 : S) (e : error) :
  Perform a s = (Some e, s1) ->
  parallelStep_Perform [recorded 0 a; recorded 1 b] [0] (s, [])
    = Running (s1, [PerformCall 0]) /\
  (forall rb s2,
      Perform b s1 = (rb, s2) ->
      parallelStep_Perform [recorded 0 a; recorded 1 b] [0; 1] (s, [])
        = Returned (Some e) (s2, [PerformCall 0; PerformCall 1])).
Proof.
  intros Ha. unfold parallelStep_Perform. simpl. rewrite Ha. simpl. split; [done|].
  intros rb s2 Hb. by rewrite Hb.
Qed.

End Trees.

Import Fixture(fakeStep, disaster).

(** The other cases of the combinators' tests: three children that succeed
    are performed in order and cleaned up last one first, and the outcome is
    nil; two parallel children that succeed give nil once both are done. *)
Example serial_cleans_up_in_reverse :
  serialStep_Perform
    [recorded 0 (fakeStep 1 None); recorded 1 (fakeStep 2 None);
     recorded 2 (fakeStep 3 None)] ([], [])
  = (None, ([1; 2; 3; 30; 20; 10],
            [PerformCall 0; PerformCall 1; PerformCall 2;
             CleanupCall 2; CleanupCall 1; CleanupCall 0])).
Proof. reflexivity. Qed.

Example parallel_performs_both :
  parallelStep_Perform [fakeStep 1 None; fakeStep 2 None] [1; 0] []
  = Returned None [2; 1].
Proof. reflexivity. Qed.

Lemma serial_failure_in_the_middle_witness :
  serialStep_Perform
    [recorded 0 (fakeStep 1 None); recorded 1 (fakeStep 2 (Some disaster));
     recorded 2 (fakeStep 3 None)] ([], [])
  = (Some disaster, ([1; 2; 10], [PerformCall 0; PerformCall 1; CleanupCall 0])).
Proof.
  apply (serial_failure_in_the_middle (fakeStep 1 None) (fakeStep 2 (Some disaster))
           (fakeStep 3 None) [] [1] [1; 2] disaster).
  - reflexivity.
  - reflexivity.
Defined.

Lemma parallel_waits_for_the_rest_witness :
  parallelStep_Perform
    [recorded 0 (fakeStep 1 (Some disaster)); recorded 1 (fakeStep 2 None)] [0] ([], [])
  = Running ([1], [PerformCall 0]) /\
  parallelStep_Perform
    [recorded 0 (fakeStep 1 (Some disaster)); recorded 1 (fakeStep 2 None)] [0; 1] ([], [])
  = Returned (Some disaster) ([1; 2], [PerformCall 0; PerformCall 1]).
Proof.
  destruct (parallel_waits_for_the_rest (fakeStep 1 (Some disaster)) (fakeStep 2 None)
              [] [1] disaster) as [Hwait Hdone].
  - reflexivity.
  - split; [exact Hwait|]. apply (Hdone None [1; 2]). reflexivity.
Defined.

End CombinatorFacts.

(** ** The allocation store *)

Module AllocationFacts.

Import AllocationStore.





Import Fixture(banana, node, initializing, fresh, reserved, failed, isNil_table).


(** The entry the store's [Fail] test reads back, under section 4.1: the
    failed result with its reason, the state still [Initializing].  (That
    test expects the state [Completed] there, the "store-terminal" pattern
    the specification names and does not adopt.) *)
Example Fail_entry_of_the_test :
  Lookup "banana" failed =
    inr {| Guid := "banana"; MemoryMB := 512; DiskMB := 512; AllocatedAt := 7;
           CState := StateInitializing; Setup := None; MainAction := "run";
           Monitor := None; StartTimeout := 0;
           RunResult := {| Failed := true; FailureReason := "failure-reason" |} |}.
Proof. vm_compute; reflexivity. Qed.

(** Which of reserve, initialize and fail are errors from which state, for
    the transitions section 4.1 settles. *)
Example transitions_of_the_store :
  isNil_table
    [ fst (Allocate 7 banana fresh); fst (Allocate 7 banana reserved);
      fst (Allocate 7 banana initializing); fst (Allocate 7 banana failed);
      fst (Initialize "banana" fresh); fst (Initialize "banana" reserved);
      fst (Initialize "banana" initializing); fst (Initialize "banana" failed);
      fst (Fail "banana" "failure-reason" fresh); fst (Fail "banana" "failure-reason" reserved);
      fst (Fail "banana" "failure-reason" initializing) ]
  = [ true; false; false; false;
      false; true; false; false;
      false; false; true ].
Proof. vm_compute; reflexivity. Qed.

End AllocationFacts.

(** ** More on the container store *)

Section GardenStoreMore.

Import GardenStore Observe.

Variable ContainerStateProperty ContainerResultProperty : string.
Variable stateString : State -> string.
Variable Error : error -> string.
Variable jsonMarshal : ContainerRunResult -> error + string.
Variable Garden2Executor : string -> gmap string string -> error + Container.
Variable healthyMonitoringInterval unhealthyMonitoringInterval : Z.

Local Abbreviation transitionToRunning :=
  (transitionToRunning ContainerStateProperty stateString Garden2Executor).
Local Abbreviation transitionToComplete :=
  (transitionToComplete ContainerStateProperty ContainerResultProperty stateString
     jsonMarshal Garden2Executor).
Local Abbreviation selectCase :=
  (selectCase ContainerStateProperty stateString Error Garden2Executor).
Local Abbreviation outerLoop :=
  (outerLoop ContainerStateProperty stateString Error Garden2Executor).
Local Abbreviation supervise :=
  (supervise ContainerStateProperty ContainerResultProperty stateString Error
     jsonMarshal Garden2Executor).
Local Abbreviation advance :=
  (advance ContainerStateProperty ContainerResultProperty stateString Error
     jsonMarshal Garden2Executor).
Local Abbreviation Wait :=
  (Wait ContainerStateProperty ContainerResultProperty stateString Error
     jsonMarshal Garden2Executor).
Local Abbreviation Stop :=
  (Stop ContainerStateProperty ContainerResultProperty stateString Error
     jsonMarshal Garden2Executor).
Local Abbreviation Run :=
  (Run ContainerStateProperty ContainerResultProperty stateString Error
     jsonMarshal Garden2Executor healthyMonitoringInterval unhealthyMonitoringInterval).

(** X1.  [Run] for a guid the runtime does not hold returns
    [ErrContainerNotFound]; when the lookup fails for another reason, [Run]
    returns that error.  In both cases nothing is written, emitted or
    started, whatever the state of the container record. *)
Theorem Run_lookup_failure container w :
  (lookupFault w !! Guid container = None ->
   garden w !! Guid container = None ->
   Run container w = (Some ErrContainerNotFound, w)) /\
  (forall e,
      lookupFault w !! Guid container = Some e ->
      (forall h, e <> GardenContainerNotFoundError h) ->
      Run container w = (Some e, w)).
Proof.
  split.
  - intros Hf Hg. unfold GardenStore.Run, lookup, gardenClient_Lookup. by rewrite Hf, Hg.
  - intros e Hf Hne. unfold GardenStore.Run, lookup, gardenClient_Lookup. rewrite Hf.
    destruct e; try done. by destruct (Hne handle).
Qed.

(** X2.  [Destroy] treats a container the runtime does not hold as
    destroyed: without an injected failure it returns nil whether or not the
    container exists, and a second [Destroy] returns nil and changes
    nothing. *)
Theorem Destroy_idempotent guid w :
  destroyFault w !! guid = None ->
  fst (Destroy guid w) = None /\
  garden (snd (Destroy guid w)) !! guid = None /\
  Destroy guid (snd (Destroy guid w)) = (None, snd (Destroy guid w)).
Proof.
  intros Hf.
  assert (Hfree : forall w0, runningProcesses w0 !! guid = None ->
                             snd (freeStepProcess guid w0) = w0).
  { intros w0 H0. unfold freeStepProcess. by rewrite H0. }
  assert (Hgone : forall w0, destroyFault w0 !! guid = None -> garden w0 !! guid = None ->
                             runningProcesses w0 !! guid = None ->
                             Destroy guid w0 = (None, w0)).
  { intros w0 H1 H2 H3. unfold Destroy. rewrite (Hfree _ H3).
    unfold gardenClient_Destroy. by rewrite H1, H2. }
  pose proof (freeStepProcess_registry guid w) as Hreg.
  assert (Hfault : destroyFault (snd (freeStepProcess guid w)) = destroyFault w).
  { unfold freeStepProcess. by destruct (runningProcesses w !! guid). }
  set (w1 := snd (freeStepProcess guid w)) in *.
  destruct (garden w1 !! guid) as [props|] eqn:Hg.
  - assert (HD : Destroy guid w = (None, with_garden (delete guid (garden w1)) w1)).
    { unfold Destroy, gardenClient_Destroy. fold w1. by rewrite Hfault, Hf, Hg. }
    rewrite HD. simpl. repeat split; [apply lookup_delete_eq|].
    apply Hgone; simpl; [by rewrite Hfault|apply lookup_delete_eq|done].
  - assert (HD : Destroy guid w = (None, w1)).
    { unfold Destroy, gardenClient_Destroy. fold w1. by rewrite Hfault, Hf, Hg. }
    rewrite HD. simpl. repeat split; [done|]. apply Hgone; [by rewrite Hfault|done|done].
Qed.

(** X3.  When the runtime fails to destroy the container for a reason
    other than not holding it, [Destroy] returns that error and the runtime
    container is kept; the registry entry is gone all the same, so a later
    [Stop] of the guid finds no process. *)
Theorem Destroy_failure_still_frees_the_process guid w e :
  destroyFault w !! guid = Some e ->
  (forall h, e <> GardenContainerNotFoundError h) ->
  fst (Destroy guid w) = Some e /\
  garden (snd (Destroy guid w)) = garden w /\
  runningProcesses (snd (Destroy guid w)) !! guid = None /\
  (forall evs, Stop guid evs (snd (Destroy guid w)) =
               Some (Some ErrContainerNotFound, snd (Destroy guid w))).
Proof.
  intros Hf Hne.
  assert (Hfault : destroyFault (snd (freeStepProcess guid w)) = destroyFault w).
  { unfold freeStepProcess. by destruct (runningProcesses w !! guid). }
  assert (Hgarden : garden (snd (freeStepProcess guid w)) = garden w).
  { unfold freeStepProcess. by destruct (runningProcesses w !! guid). }
  assert (HD : Destroy guid w = (Some e, snd (freeStepProcess guid w))).
  { unfold Destroy, gardenClient_Destroy. rewrite Hfault, Hf.
    destruct e; try done. by destruct (Hne handle). }
  rewrite HD. simpl. repeat split; [done|apply freeStepProcess_registry|].
  intros evs. unfold GardenStore.Stop.
  pose proof (freeStepProcess_registry guid w) as Hreg.
  unfold freeStepProcess at 1. by rewrite Hreg.
Qed.

Lemma SetProperty_inv h k v w oe w' :
  SetProperty h k v w = (oe, w') ->
  match oe with
  | Some _ => w' = w
  | None => exists props, garden w !! h = Some props /\
                          w' = with_garden (<[h := <[k := v]> props]> (garden w)) w
  end.
Proof.
  unfold SetProperty.
  destruct (setPropertyFault w !! (h, k)); [by intros [= <- <-]|].
  destruct (garden w !! h) as [props|]; intros [= <- <-]; [by exists props|done].
Qed.

Lemma transitionToComplete_outcome gc r w :
  match transitionToComplete gc r w with
  | (None, w') =>
      exists json props c,
        jsonMarshal r = inr json /\ garden w !! gc = Some props /\
        garden w' !! gc =
          Some (<[ContainerStateProperty := stateString StateCompleted]>
                  (<[ContainerResultProperty := json]> props)) /\
        Garden2Executor gc
          (<[ContainerStateProperty := stateString StateCompleted]>
             (<[ContainerResultProperty := json]> props)) = inr c /\
        emitted w' = emitted w ++ [ContainerCompleteEvent c]
  | (Some _, w') => emitted w' = emitted w
  end.
Proof.
  unfold GardenStore.transitionToComplete.
  destruct (jsonMarshal r) as [e|json] eqn:Hj; [done|].
  destruct (SetProperty gc ContainerResultProperty json w) as [[e|] w1] eqn:H1;
    apply SetProperty_inv in H1; [by subst|].
  destruct H1 as (props & Hg & ->).
  destruct (SetProperty gc ContainerStateProperty (stateString StateCompleted) _)
    as [[e|] w2] eqn:H2; apply SetProperty_inv in H2; [by subst|].
  destruct H2 as (props' & Hg' & ->). simpl in Hg'.
  rewrite lookup_insert_eq in Hg'. injection Hg' as <-.
  unfold exchange; simpl. rewrite lookup_insert_eq.
  destruct (Garden2Executor gc _) as [e|c] eqn:Hx; [done|].
  exists json, props, c. simpl. by rewrite lookup_insert_eq.
Qed.

Lemma transitionToRunning_outcome gc w :
  match transitionToRunning gc w with
  | (None, w') =>
      exists props c,
        garden w !! gc = Some props /\
        garden w' !! gc =
          Some (<[ContainerStateProperty := stateString StateRunning]> props) /\
        Garden2Executor gc
          (<[ContainerStateProperty := stateString StateRunning]> props) = inr c /\
        emitted w' = emitted w ++ [ContainerRunningEvent c]
  | (Some _, w') => emitted w' = emitted w
  end.
Proof.
  unfold GardenStore.transitionToRunning.
  destruct (SetProperty gc ContainerStateProperty (stateString StateRunning) w)
    as [[e|] w1] eqn:H1; apply SetProperty_inv in H1; [by subst|].
  destruct H1 as (props & Hg & ->).
  unfold exchange; simpl. rewrite lookup_insert_eq.
  destruct (Garden2Executor gc _) as [e|c] eqn:Hx; [done|].
  exists props, c. simpl. by rewrite lookup_insert_eq.
Qed.

(** X4.  An event is emitted only after the property writes it announces
    have succeeded.  When [transitionToComplete] returns nil, the runtime
    container holds the encoded result and the completed state, and the one
    event appended is the complete event for the container read back from
    those properties; when it returns an error, no event is appended.  The
    same holds for [transitionToRunning] and the running event. *)
Theorem events_follow_property_writes gc r w :
  (fst (transitionToComplete gc r w) = None ->
   exists json props c,
     jsonMarshal r = inr json /\ garden w !! gc = Some props /\
     garden (snd (transitionToComplete gc r w)) !! gc =
       Some (<[ContainerStateProperty := stateString StateCompleted]>
               (<[ContainerResultProperty := json]> props)) /\
     Garden2Executor gc (<[ContainerStateProperty := stateString StateCompleted]>
                           (<[ContainerResultProperty := json]> props)) = inr c /\
     emitted (snd (transitionToComplete gc r w)) = emitted w ++ [ContainerCompleteEvent c]) /\
  (fst (transitionToComplete gc r w) <> None ->
   emitted (snd (transitionToComplete gc r w)) = emitted w) /\
  (fst (transitionToRunning gc w) = None ->
   exists props c,
     garden w !! gc = Some props /\
     garden (snd (transitionToRunning gc w)) !! gc =
       Some (<[ContainerStateProperty := stateString StateRunning]> props) /\
     Garden2Executor gc (<[ContainerStateProperty := stateString StateRunning]> props) = inr c /\
     emitted (snd (transitionToRunning gc w)) = emitted w ++ [ContainerRunningEvent c]) /\
  (fst (transitionToRunning gc w) <> None ->
   emitted (snd (transitionToRunning gc w)) = emitted w).
Proof.
  pose proof (transitionToComplete_outcome gc r w) as HC.
  pose proof (transitionToRunning_outcome gc w) as HR.
  destruct (transitionToComplete gc r w) as [[e|] w'];
    destruct (transitionToRunning gc w) as [[e'|] w'']; simpl; repeat split; try done.
Qed.

Lemma transitionToRunning_emitted gc w :
  exists l, emitted (snd (transitionToRunning gc w)) = emitted w ++ l /\ atMostRunning l.
Proof.
  pose proof (transitionToRunning_outcome gc w) as H.
  destruct (transitionToRunning gc w) as [[e|] w1]; simpl.
  - exists []. rewrite app_nil_r. split; [done|by left].
  - destruct H as (props & c & _ & _ & _ & H).
    exists [ContainerRunningEvent c]. split; [done|right; by exists c].
Qed.

Lemma transitionToComplete_emitted gc r w :
  exists l, emitted (snd (transitionToComplete gc r w)) = emitted w ++ l /\ atMostComplete l.
Proof.
  pose proof (transitionToComplete_outcome gc r w) as H.
  destruct (transitionToComplete gc r w) as [[e|] w1]; simpl.
  - exists []. rewrite app_nil_r. split; [done|by left].
  - destruct H as (json & props & c & _ & _ & _ & _ & H).
    exists [ContainerCompleteEvent c]. split; [done|right; by exists c].
Qed.

Lemma selectCase_signalInvariant gc ev ls w :
  signalInvariant ls ->
  match selectCase gc ev ls w with
  | Continue ls1 _ | Break ls1 _ => signalInvariant ls1
  | NotReady => True
  end.
Proof.
  unfold signalInvariant. intros [H1 H2].
  destruct ev as [| |[e|]]; simpl.
  - destruct (signalsNil ls) eqn:E; [done|]. simpl. by rewrite H2.
  - destruct (hasStartedRunningNil ls); [done|].
    by destruct (transitionToRunning gc w) as [[e|] w1].
  - destruct (toldToStop ls) eqn:E; simpl; split; congruence.
  - done.
Qed.

Lemma outerLoop_signalInvariant gc evs : forall ls w,
  signalInvariant ls -> signalInvariant (loopState (outerLoop gc evs ls w)).
Proof.
  induction evs as [|ev evs IH]; intros ls w Hinv; simpl; [done|].
  pose proof (selectCase_signalInvariant gc ev ls w Hinv) as H.
  destruct (selectCase gc ev ls w) as [ls1 w1|ls1 w1|]; simpl; auto.
Qed.

Lemma outerLoop_emitted gc evs : forall ls w,
  exists l,
    emitted (loopWorld (outerLoop gc evs ls w)) = emitted w ++ l /\
    atMostRunning l /\
    (hasStartedRunningNil ls = true -> l = []).
Proof.
  induction evs as [|ev evs IH]; intros ls w; simpl.
  { exists []. rewrite app_nil_r. split; [done|split; [by left|done]]. }
  destruct ev as [| |err]; simpl.
  - destruct (signalsNil ls); [apply IH|].
    destruct (IH {| signalsNil := true; hasStartedRunningNil := hasStartedRunningNil ls;
                    toldToStop := true; result := result ls;
                    cancelCalls := S (cancelCalls ls) |} w) as (l & H1 & H2 & H3).
    exists l. split; [done|split; done].
  - destruct (hasStartedRunningNil ls) eqn:Hn.
    + destruct (IH ls w) as (l & H1 & H2 & H3). exists l. split; [done|split; auto].
    + destruct (transitionToRunning_emitted gc w) as (l & Hl & Hat).
      destruct (transitionToRunning gc w) as [[e|] w1] eqn:Ht; simpl in *.
      * exists l. split; [done|split; done].
      * destruct (IH {| signalsNil := signalsNil ls; hasStartedRunningNil := true;
                        toldToStop := toldToStop ls; result := result ls;
                        cancelCalls := cancelCalls ls |} w1) as (l' & H1 & _ & H3).
        rewrite (H3 eq_refl), app_nil_r in H1.
        exists l. split; [congruence|split; done].
  - exists []. rewrite app_nil_r.
    destruct err as [e|]; [destruct (toldToStop ls)|]; (split; [done|split; [by left|done]]).
Qed.


(** X5.  Whatever the supervisor receives, it cancels the step tree at most
    once, and exactly when it has recorded the stop; and the events of one
    supervisor are at most one running event followed by at most one
    complete event. *)
Theorem supervisor_cancels_once_and_orders_events gc evs w :
  cancelCalls (loopState (outerLoop gc evs initialLoopState w)) <= 1 /\
  (cancelCalls (loopState (outerLoop gc evs initialLoopState w)) = 1 <->
   toldToStop (loopState (outerLoop gc evs initialLoopState w)) = true) /\
  (forall ls w',
      supervise gc evs w = Some (ls, w') ->
      exists running complete,
        emitted w' = emitted w ++ running ++ complete /\
        atMostRunning running /\ atMostComplete complete).
Proof.
  assert (Hinit : signalInvariant initialLoopState) by done.
  pose proof (outerLoop_signalInvariant gc evs initialLoopState w Hinit) as [H1 H2].
  split; [|split].
  - rewrite H2. destruct (signalsNil _); lia.
  - rewrite H1, H2. by destruct (signalsNil _).
  - intros ls w'. unfold GardenStore.supervise, superviseFrom.
    destruct (outerLoop_emitted gc evs initialLoopState w) as (l & Hl & Hat & _).
    destruct (outerLoop gc evs initialLoopState w) as [ls1 w1|ls1 w1]; [done|].
    intros [= <- <-]. simpl in Hl.
    destruct (transitionToComplete_emitted gc (result ls1) w1) as (l2 & Hl2 & Hat2).
    exists l, l2. rewrite Hl2, Hl, app_assoc. done.
Qed.

Lemma outerLoop_exits gc evs : forall ls w,
  existsb isSeqComplete evs = true ->
  exists ls1 w1, outerLoop gc evs ls w = Broke ls1 w1.
Proof.
  induction evs as [|ev evs IH]; intros ls w; simpl; [done|].
  destruct ev as [| |err]; simpl.
  - intros H. destruct (signalsNil ls); apply IH; done.
  - intros H. destruct (hasStartedRunningNil ls); [by apply IH|].
    destruct (transitionToRunning gc w) as [[e|] w1]; [by eexists _, _|by apply IH].
  - intros _. destruct err as [e|]; [destruct (toldToStop ls)|]; by eexists _, _.
Qed.

Lemma outerLoop_signals_only gc evs : forall ls w,
  forallb isSignal evs = true ->
  exists ls1, outerLoop gc evs ls w = Blocked ls1 w.
Proof.
  induction evs as [|ev evs IH]; intros ls w; simpl; [by exists ls|].
  destruct ev; simpl; try done. intros H.
  destruct (signalsNil ls); apply IH; done.
Qed.

(** X6.  The supervisor exits as soon as the step tree has completed:
    every schedule that delivers the completion makes it leave the loop.
    Stop signals alone never do: after any number of them the supervisor is
    still waiting for the step tree, with the world as it was. *)
Theorem supervisor_exits_on_completion_only gc w :
  (forall evs,
      existsb isSeqComplete evs = true ->
      exists ls w', supervise gc evs w = Some (ls, w')) /\
  (forall evs,
      forallb isSignal evs = true ->
      supervise gc evs w = None /\
      loopWorld (outerLoop gc evs initialLoopState w) = w).
Proof.
  split; intros evs H.
  - destruct (outerLoop_exits gc evs initialLoopState w H) as (ls1 & w1 & Hb).
    unfold GardenStore.supervise, superviseFrom. rewrite Hb. by eexists _, _.
  - destruct (outerLoop_signals_only gc evs initialLoopState w H) as (ls1 & Hb).
    unfold GardenStore.supervise, superviseFrom. by rewrite Hb.
Qed.

Lemma outerLoop_not_told gc evs : forall ls w ls1 w1,
  outerLoop gc evs ls w = Blocked ls1 w1 ->
  existsb isSignal evs = false ->
  toldToStop ls1 = toldToStop ls.
Proof.
  induction evs as [|ev evs IH]; intros ls w ls1 w1; simpl.
  - by intros [= <- <-].
  - destruct ev as [| |err]; simpl; [done| |].
    + destruct (hasStartedRunningNil ls); [apply IH|].
      destruct (transitionToRunning gc w) as [[e|] w2]; [done|].
      intros H Hs. by rewrite (IH _ _ _ _ H Hs).
    + destruct err as [e|]; [destruct (toldToStop ls)|]; done.
Qed.

(** X7.  How the supervisor classifies the end of the step tree.  While the
    loop is still selecting: a step tree that ends without error leaves the
    zero result, stop or no stop; one that ends with an error, no stop having
    been received, is recorded as failed with the text of that error; and a
    failing transition to running ends the supervisor at once, recorded as
    failed with the text of that failure, without the step tree having been
    cancelled. *)
Theorem supervisor_result_classification gc pre w ls1 w1 :
  outerLoop gc pre initialLoopState w = Blocked ls1 w1 ->
  (forall rest,
      supervise gc (pre ++ RecvSeqComplete None :: rest) w =
        Some (ls1, snd (transitionToComplete gc zeroRunResult w1))) /\
  (forall e rest,
      existsb isSignal pre = false ->
      exists ls2,
        supervise gc (pre ++ RecvSeqComplete (Some e) :: rest) w =
          Some (ls2, snd (transitionToComplete gc
                            {| Failed := true; FailureReason := Error e |} w1)) /\
        result ls2 = {| Failed := true; FailureReason := Error e |}) /\
  (forall e w2 rest,
      hasStartedRunningNil ls1 = false ->
      transitionToRunning gc w1 = (Some e, w2) ->
      exists ls2,
        supervise gc (pre ++ RecvHasStartedRunning :: rest) w =
          Some (ls2, snd (transitionToComplete gc
                            {| Failed := true; FailureReason := Error e |} w2)) /\
        cancelCalls ls2 = cancelCalls ls1).
Proof.
  intros Hpre.
  destruct (outerLoop_Blocked ContainerStateProperty stateString Error Garden2Executor
              _ _ _ _ _ _ Hpre) as (Hr & _ & _); [done|]. simpl in Hr.
  split; [|split].
  - intros rest. unfold GardenStore.supervise, superviseFrom.
    rewrite (outerLoop_app ContainerStateProperty stateString Error Garden2Executor), Hpre.
    simpl. by rewrite Hr.
  - intros e rest Hs.
    pose proof (outerLoop_not_told _ _ _ _ _ _ Hpre Hs) as Ht. simpl in Ht.
    eexists. unfold GardenStore.supervise, superviseFrom.
    rewrite (outerLoop_app ContainerStateProperty stateString Error Garden2Executor), Hpre.
    simpl. rewrite Ht. simpl. done.
  - intros e w2 rest Hn Ht.
    eexists. unfold GardenStore.supervise, superviseFrom.
    rewrite (outerLoop_app ContainerStateProperty stateString Error Garden2Executor), Hpre.
    simpl. rewrite Hn, Ht. simpl. done.
Qed.

(** X8.  [Stop] returns nil only for a guid that had a registered
    supervisor, and only once that supervisor has exited: the process it
    signalled is marked exited and signalled, and the entry is gone. *)
Theorem Stop_returns_after_supervisor_exit guid evs w w' :
  Stop guid evs w = Some (None, w') ->
  exists pid p,
    runningProcesses w !! guid = Some pid /\
    procs w' !! pid = Some p /\
    p_exited p = true /\ p_signalled p = true /\
    runningProcesses w' !! guid = None.
Proof.
  unfold GardenStore.Stop, freeStepProcess.
  destruct (runningProcesses w !! guid) as [pid|] eqn:Hreg; [|done].
  set (w0 := with_procs _ _).
  unfold GardenStore.Wait.
  destruct (procs (advance pid evs w0) !! pid) as [p|] eqn:Hp; [|done].
  destruct (p_exited p) eqn:Hex; [|done].
  intros [= <-]. exists pid, p. repeat split; try done.
  - revert Hp Hex. unfold GardenStore.advance.
    destruct (procs w0 !! pid) as [p0|] eqn:Hp0.
    + assert (Hsig : p_signalled p0 = true).
      { subst w0. simpl in Hp0. rewrite list_lookup_alter_eq in Hp0.
        destruct (procs w !! pid); [|done]. by injection Hp0 as <-. }
      destruct (p_exited p0) eqn:Hex0.
      * rewrite Hp0. by intros [= <-].
      * pose proof (outerLoop_sameStore ContainerStateProperty stateString Error
                      Garden2Executor (p_guid p0) (List.filter (ready p0) evs)
                      (p_loop p0) w0) as Hsame.
        destruct (GardenStore.outerLoop _ _ _ _ _ _ _ _) as [ls w1|ls w1]; simpl.
        -- destruct Hsame as [Hsame _]. rewrite Hsame.
           rewrite list_lookup_insert_eq by (by eapply lookup_lt_Some).
           intros [= <-]. simpl. congruence.
        -- destruct (transitionToComplete_sameStore ContainerStateProperty
                       ContainerResultProperty stateString jsonMarshal Garden2Executor
                       (p_guid p0) (result ls) w1) as [Hs2 _].
           destruct Hsame as [Hsame _]. rewrite Hs2, Hsame.
           rewrite list_lookup_insert_eq by (by eapply lookup_lt_Some).
           by intros [= <-].
    + rewrite Hp0. done.
  - rewrite (advance_runningProcesses ContainerStateProperty ContainerResultProperty
               stateString Error jsonMarshal Garden2Executor).
    subst w0. simpl. apply lookup_delete_eq.
Qed.

(** X9.  [Run] of a created container the runtime holds returns nil and
    registers a new, running supervisor under the guid without touching the
    runtime or emitting anything; the token that marks the container running
    is put in the channel at once exactly when there is no monitor.  [Run]
    does not look for an earlier supervisor: run again, it replaces the
    registry entry, and [freeStepProcess] then signals the second supervisor
    only, the first one being out of reach. *)
Theorem Run_registers_a_supervisor container w gc :
  lookup (Guid container) w = inr gc ->
  CState container = StateCreated ->
  fst (Run container w) = None /\
  garden (snd (Run container w)) = garden w /\
  emitted (snd (Run container w)) = emitted w /\
  runningProcesses (snd (Run container w)) !! Guid container = Some (length (procs w)) /\
  (exists p,
      procs (snd (Run container w)) = procs w ++ [p] /\
      p_exited p = false /\ p_signalled p = false /\
      p_hasStartedRunning p = match Monitor container with Some _ => 0 | None => 1 end /\
      let w2 := snd (Run container (snd (Run container w))) in
      runningProcesses w2 !! Guid container = Some (S (length (procs w))) /\
      procs (snd (freeStepProcess (Guid container) w2)) !! length (procs w) = Some p /\
      p_signalled <$> procs (snd (freeStepProcess (Guid container) w2)) !! S (length (procs w))
        = Some true).
Proof.
  intros Hl Hs.
  assert (HR : forall w0, lookup (Guid container) w0 = inr gc ->
               exists step tokens,
                 tokens = match Monitor container with Some _ => 0 | None => 1 end /\
                 Run container w0 = (None, runStepProcess step tokens (Guid container) w0)).
  { intros w0 Hl0. unfold GardenStore.Run. rewrite Hl0.
    destruct (decide (CState container = StateCreated)); [|done].
    eexists _, _. split; [|reflexivity]. by destruct (Monitor container). }
  destruct (HR w Hl) as (step & tokens & Htok & HR1). rewrite HR1. simpl.
  split; [done|]. split; [done|]. split; [done|]. split; [apply lookup_insert_eq|].
  eexists. split; [reflexivity|]. simpl.
  split; [done|]. split; [done|]. split; [done|].
  assert (Hl2 : lookup (Guid container) (runStepProcess step tokens (Guid container) w)
                = inr gc) by exact Hl.
  destruct (HR _ Hl2) as (step2 & tokens2 & _ & HR2). rewrite HR2.
  unfold runStepProcess, freeStepProcess. simpl.
  rewrite !lookup_insert_eq. simpl. rewrite !length_app. simpl.
  replace (length (procs w) + 1) with (S (length (procs w))) by lia.
  split; [done|]. split.
  - rewrite list_lookup_alter_ne by lia.
    rewrite lookup_app_l by (rewrite length_app; simpl; lia).
    by rewrite lookup_app_r, Nat.sub_diag by lia.
  - rewrite list_lookup_alter_eq.
    rewrite lookup_app_r by (rewrite length_app; simpl; lia).
    rewrite length_app. simpl.
    replace (S (length (procs w)) - (length (procs w) + 1)) with 0 by lia. done.
Qed.

End GardenStoreMore.

(** ** More on the periodic monitor *)

Module MonitorMore.

Import Steps.

Lemma monitorLoop_app step evs1 evs2 : forall v,
  monitorLoop step (evs1 ++ evs2) v =
  match monitorLoop step evs1 v with
  | Returned err v1 => Returned err v1
  | Running v1 => monitorLoop step evs2 v1
  end.
Proof.
  induction evs1 as [|ev evs1 IH]; intros v; simpl; [done|].
  destruct (monitorIteration step ev v); auto.
Qed.

(** Failing checks of a step that is not healthy, none of them after the
    deadline if there is one: each only rearms the timer. *)
Lemma monitorLoop_failing step early : forall v,
  healthy v = false ->
  match startBy v with
  | Some deadline => Forall (fun tick => (fst tick <= deadline)%Z) early
  | None => True
  end ->
  monitorLoop step (map failing early) v =
  Running {| healthy := false; interval := interval v; startBy := startBy v;
             sent := sent v; stderr := stderr v;
             resets := resets v ++ repeat (interval v) (length early) |}.
Proof.
  induction early as [|[t e] early IH]; intros v Hh Hd; simpl.
  - rewrite app_nil_r. destruct v; simpl in *; by subst.
  - rewrite Hh. simpl.
    assert (Hrun : match startBy v with
                   | Some deadline =>
                       if (deadline <? t)%Z
                       then if negb (healthy v)
                            then Returned (Some e)
                                   {| healthy := healthy v; interval := interval v;
                                      startBy := startBy v; sent := sent v;
                                      stderr := stderr v ++ [StderrTimeoutMessage (startTimeout step)];
                                      resets := resets v |}
                            else Running (timerReset
                                   {| healthy := healthy v; interval := interval v;
                                      startBy := None; sent := sent v;
                                      stderr := stderr v; resets := resets v |})
                       else Running (timerReset v)
                   | None => Running (timerReset v)
                   end = Running (timerReset v)).
    { destruct (startBy v) as [d|]; [|done].
      inversion Hd as [|? ? Ht _]; subst. simpl in Ht.
      by destruct (Z.ltb_spec d t); [lia|]. }
    rewrite Hrun. rewrite IH; simpl; [|done|].
    + by rewrite <- app_assoc.
    + destruct (startBy v); [|done]. by inversion Hd.
Qed.

(** Passing checks of a healthy step: each only rearms the timer. *)
Lemma monitorLoop_passing_resets step nows : forall v,
  healthy v = true -> startBy v = None ->
  monitorLoop step (map (fun t => TimerC t None) nows) v =
  Running {| healthy := true; interval := interval v; startBy := None;
             sent := sent v; stderr := stderr v;
             resets := resets v ++ repeat (interval v) (length nows) |}.
Proof.
  induction nows as [|now nows IH]; intros v Hh Hb; simpl.
  - rewrite app_nil_r. destruct v; simpl in *; by subst.
  - rewrite Hh. simpl. rewrite Hb. rewrite IH by done. simpl.
    by rewrite <- app_assoc.
Qed.

(** Failing checks, then passing ones. *)
Lemma monitorStep_failing_then_passing step start early nows :
  (0 < healthyInterval step)%Z ->
  (0 < unhealthyInterval step)%Z ->
  ((startTimeout step <= 0)%Z \/
   Forall (fun tick => (fst tick <= start + startTimeout step)%Z) early) ->
  monitorStep_Perform step start (map failing early ++ map (fun t => TimerC t None) nows) =
  Running {| healthy := negb (Nat.eqb (length nows) 0);
             interval := if Nat.eqb (length nows) 0
                         then unhealthyInterval step else healthyInterval step;
             startBy := if Nat.eqb (length nows) 0
                        then startBy (monitorInit step start) else None;
             sent := if Nat.eqb (length nows) 0 then 0 else 1;
             stderr := [];
             resets := repeat (unhealthyInterval step) (length early) ++
                       repeat (healthyInterval step) (length nows) |}.
Proof.
  intros Hh Hu Hd. unfold monitorStep_Perform.
  destruct (Z.leb_spec (healthyInterval step) 0); [lia|].
  destruct (Z.leb_spec (unhealthyInterval step) 0); [lia|].
  rewrite monitorLoop_app, monitorLoop_failing; [|done|].
  - destruct nows as [|now nows]; simpl; [by rewrite app_nil_r|].
    rewrite monitorLoop_passing_resets by done. simpl.
    by rewrite <- app_assoc.
  - simpl. destruct (Z.ltb_spec 0 (startTimeout step)); [|done].
    destruct Hd as [Hd|Hd]; [lia|done].
Qed.

(** X10.  The timer of the periodic monitor is rearmed with the unhealthy
    interval after every failing check and, from the first passing check on,
    with the healthy interval.  Here the checks fail, within the start
    timeout if there is one, then pass; the step is then healthy and still
    running, and it has sent one token if a check has passed, none
    otherwise. *)
Theorem monitor_rearms_with_the_current_interval step start early nows :
  (0 < healthyInterval step)%Z ->
  (0 < unhealthyInterval step)%Z ->
  ((startTimeout step <= 0)%Z \/
   Forall (fun tick => (fst tick <= start + startTimeout step)%Z) early) ->
  monitorStep_Perform step start (map failing early ++ map (fun t => TimerC t None) nows) =
  Running {| healthy := negb (Nat.eqb (length nows) 0);
             interval := if Nat.eqb (length nows) 0
                         then unhealthyInterval step else healthyInterval step;
             startBy := if Nat.eqb (length nows) 0
                        then startBy (monitorInit step start) else None;
             sent := if Nat.eqb (length nows) 0 then 0 else 1;
             stderr := [];
             resets := repeat (unhealthyInterval step) (length early) ++
                       repeat (healthyInterval step) (length nows) |}.
Proof. apply monitorStep_failing_then_passing. Qed.

(** X11.  A start timeout that is not positive means no deadline: however
    long the check keeps failing, the periodic monitor keeps running, sends
    no token and writes no timeout message. *)
Theorem monitor_without_start_timeout_never_times_out step start ticks :
  (0 < healthyInterval step)%Z ->
  (0 < unhealthyInterval step)%Z ->
  (startTimeout step <= 0)%Z ->
  exists v,
    monitorStep_Perform step start (map failing ticks) = Running v /\
    healthy v = false /\ sent v = 0 /\ stderr v = [].
Proof.
  intros Hh Hu Ht.
  pose proof (monitorStep_failing_then_passing step start ticks [] Hh Hu
                (or_introl Ht)) as H.
  simpl in H. rewrite app_nil_r in H. rewrite H. by eexists.
Qed.


(** X13.  [Perform] of the periodic monitor ends once: after it has
    returned, further ticks or cancellations change nothing.  While it is
    running, a cancellation that arrives between two checks makes it return
    the cancellation error, and one that arrives during a check makes it
    return what the cancelled check returns, which may be nil. *)
Theorem monitor_cancellation step start evs :
  (forall err v more,
      monitorStep_Perform step start evs = Returned err v ->
      monitorStep_Perform step start (evs ++ more) = Returned err v) /\
  (forall v more,
      monitorStep_Perform step start evs = Running v ->
      monitorStep_Perform step start (evs ++ CancelledC :: more)
        = Returned (Some ErrCancelled) v) /\
  (forall v now stepErr more,
      monitorStep_Perform step start evs = Running v ->
      monitorStep_Perform step start (evs ++ TimerCThenCancelled now stepErr :: more)
        = Returned stepErr v).
Proof.
  unfold monitorStep_Perform.
  destruct (healthyInterval step <=? 0)%Z; [by repeat split|].
  destruct (unhealthyInterval step <=? 0)%Z; [by repeat split|].
  repeat split; intros; rewrite monitorLoop_app; by rewrite H.
Qed.


End MonitorMore.

(** ** More on the download step *)

Module DownloadMore.

Import Steps.
#[local] Set Warnings "-clear-no-such-hyp".

(** X15.  [Perform] of the download step returns nil exactly when it got
    past the rate limiter and the download, the size of a cached file and the
    copy into the container all succeeded. *)
Theorem download_succeeds_exactly_when_all_parts_do ByteSize step run out :
  downloadStep_Perform ByteSize step run = Some out ->
  (returned out = None <->
   (limiterHasRoom run = true /\
    (cancelChan step = ChanClosed -> selectTakesCancel run = false) /\
    exists file,
      downloadResult run = inr file /\
      (isCachedFile file = true -> exists size, statResult file = inr size) /\
      streamInResult run = None)).
Proof.
  intros H. unfold downloadStep_Perform in H.
  destruct (cancelChan step) eqn:Hc, (limiterHasRoom run) eqn:Hr,
    (selectTakesCancel run) eqn:Hs; simpl in H;
    repeat case_match; simplify_eq; simpl;
    (split; [try done; intros _|try done; try naive_solver]);
    try (repeat split; try done; eexists; repeat split; try done;
         intros; try congruence; by eexists);
    try (intros (_ & _ & file & ? & Hsz & _); simplify_eq;
         destruct Hsz as [? ?]; [done|congruence]).
Qed.

(** X16.  What the download step reports.  A step whose action names no
    artifact writes nothing to the log.  When the download fails, a step
    cancelled before or during it returns the cancellation error, and one
    that was not cancelled returns the download's error as an emittable
    "Downloading failed" and writes the line about the failed download.  When
    the copy into the container fails (the size being known), a step
    cancelled at any time up to then returns the cancellation error, and one
    never cancelled returns the copy's error as an emittable one, the file
    closed.  The line about a failed download is written in no other case
    than a failed download without cancellation. *)
Theorem download_reports ByteSize step run out :
  downloadStep_Perform ByteSize step run = Some out ->
  (Artifact (model step) = "" -> emittedLines out = []) /\
  (forall err, downloadResult run = inl err ->
     (cancelChan step = ChanClosed \/ cancelledDuringDownload run = true ->
      returned out = Some CancelError) /\
     (cancelChan step = ChanOpen -> cancelledDuringDownload run = false ->
      returned out = Some (EmittableError (Some err) "Downloading failed" "") /\
      (Artifact (model step) <> "" ->
       In ("Failed to download " +:+ Artifact (model step) +:+ nl) (emittedLines out)))) /\
  (forall file err,
     downloadResult run = inr file ->
     (isCachedFile file = true -> exists size, statResult file = inr size) ->
     streamInResult run = Some err ->
     (cancelChan step = ChanClosed \/ cancelledDuringDownload run = true \/
      cancelledDuringStreamIn run = true ->
      returned out = Some CancelError) /\
     (cancelChan step = ChanOpen -> cancelledDuringDownload run = false ->
      cancelledDuringStreamIn run = false ->
      returned out = Some (EmittableError (Some err) "Copying into the container failed" "") /\
      fileClosed out = true)) /\
  (In ("Failed to download " +:+ Artifact (model step) +:+ nl) (emittedLines out) ->
   cancelChan step = ChanOpen /\ cancelledDuringDownload run = false /\
   exists err, downloadResult run = inl err).
Proof.
  unfold downloadStep_Perform, emit.
  intros H. split; [|split; [|split]].
  - intros Ha. rewrite Ha in H. simpl in H.
    repeat case_match; simplify_eq; done.
  - intros err Hd. rewrite Hd in H. split.
    + intros Hc.
      destruct (cancelChan step), (cancelledDuringDownload run), (limiterHasRoom run),
        (selectTakesCancel run); simpl in H; simplify_eq; try done;
        destruct Hc; done.
    + intros Hc Hcd. rewrite Hc, Hcd in H. simpl in H.
      destruct (limiterHasRoom run); simpl in H; [|done]. simplify_eq. simpl.
      split; [done|]. intros Ha.
      destruct (decide (Artifact (model step) = "")); [done|].
      apply in_or_app. right. by left.
  - intros file err Hd Hsz Hs. rewrite Hd, Hs in H.
    assert (Hsize : exists size,
               (if isCachedFile file then
                  match statResult file with
                  | inl err => inl err
                  | inr size => inr (ByteSize size)
                  end
                else inr "unknown") = (inr size : error + string)).
    { destruct (isCachedFile file); [|by eexists].
      destruct (Hsz eq_refl) as [size ->]. by eexists. }
    destruct Hsize as [size Hsize]. rewrite Hsize in H. split.
    + intros Hc.
      destruct (cancelChan step), (cancelledDuringDownload run),
        (cancelledDuringStreamIn run), (limiterHasRoom run), (selectTakesCancel run);
        simpl in H; simplify_eq; try done;
        destruct Hc as [?|[?|?]]; done.
    + intros Hc Hcd Hcs. rewrite Hc, Hcd, Hcs in H. simpl in H.
      destruct (limiterHasRoom run); simpl in H; [|done]. by simplify_eq.
  - intros Hin.
    destruct (cancelChan step), (cancelledDuringDownload run), (limiterHasRoom run),
      (selectTakesCancel run); simpl in H;
      repeat case_match; simplify_eq; simpl in Hin;
      try (repeat (destruct Hin as [Hin|Hin]; [simpl in Hin; discriminate Hin|]); done);
      try (split; [done|split; [done|by eexists]]).
Qed.

End DownloadMore.

(** ** The upload step *)

Module UploadFacts.

Import Steps Upload.
#[local] Set Warnings "-clear-no-such-hyp".

(** X17.  Once the upload step has acquired the semaphore, every way out of
    [Perform] releases it, once and after all other cleanup; when the
    acquisition fails nothing is deferred.  The deferred calls that run are
    always a tail of: remove the temporary file, close it, close the stream
    out of the container, remove the temporary directory, release. *)
Theorem upload_releases_the_semaphore ParseRequestURI ByteSize step run :
  let out := UploadStep_Perform ParseRequestURI ByteSize step run in
  (forall e, acquireResult run = Some e ->
             uploadReturned out = Some e /\ deferredCalls out = []) /\
  (acquireResult run = None ->
   exists before, deferredCalls out = before ++ [Release] /\ ~ In Release before) /\
  (exists file dir,
      deferredCalls out `suffix_of`
        [RemoveAll file; CloseTempFile; CloseOutStream; RemoveAll dir; Release]).
Proof.
  unfold UploadStep_Perform. split; [|split].
  - intros e He. by rewrite He.
  - intros Ha. rewrite Ha.
    repeat case_match; simpl;
      first [ exists []; split; [done|by intros []]
            | eexists [_]; split; [done|by intros [|[]]]
            | eexists [_; _]; split; [done|by intros [|[|[]]]]
            | eexists [_; _; _]; split; [done|by intros [|[|[|[]]]]]
            | eexists [_; _; _; _]; split; [done|by intros [|[|[|[|[]]]]]] ].
  - exists (match tempFileResult run with inr f => f | inl _ => "" end),
           (match tempDirResult run with inr d => d | inl _ => "" end).
    repeat case_match; simplify_eq; simpl;
      first [ by eexists []
            | by eexists [_]
            | by eexists [_; _]
            | by eexists [_; _; _]
            | by eexists [_; _; _; _]
            | by eexists [_; _; _; _; _] ].
Qed.


End UploadFacts.

(** ** The earlier store *)

Section LegacyFacts.

Import GardenStore.

Variable ContainerStateProperty ContainerResultProperty : string.
Variable stateString : State -> string.
Variable Error : error -> string.
Variable jsonMarshal : ContainerRunResult -> error + string.
Variable Garden2Executor : string -> gmap string string -> error + Container.

Local Abbreviation legacy_supervise :=
  (LegacyStore.supervise ContainerStateProperty ContainerResultProperty stateString Error
     jsonMarshal Garden2Executor).
Local Abbreviation legacy_outerLoop :=
  (LegacyStore.outerLoop ContainerStateProperty stateString Error Garden2Executor).

(** X19.  In the earlier store, [Destroy] returns what the runtime returns:
    destroying a container the runtime holds returns nil, and destroying it
    again returns the runtime's not-found error. *)
Theorem legacy_Destroy_twice_fails guid w props :
  destroyFault w !! guid = None ->
  garden w !! guid = Some props ->
  fst (LegacyStore.Destroy guid w) = None /\
  garden (snd (LegacyStore.Destroy guid w)) !! guid = None /\
  fst (LegacyStore.Destroy guid (snd (LegacyStore.Destroy guid w)))
    = Some (GardenContainerNotFoundError guid).
Proof.
  intros Hf Hg.
  assert (HD : forall w0, destroyFault w0 !! guid = None ->
               LegacyStore.Destroy guid w0 =
               match garden w0 !! guid with
               | Some _ => (None, with_garden (delete guid (garden w0))
                                    (snd (LegacyStore.freeStepProcess guid w0)))
               | None => (Some (GardenContainerNotFoundError guid),
                          snd (LegacyStore.freeStepProcess guid w0))
               end).
  { intros w0 H0. unfold LegacyStore.Destroy, gardenClient_Destroy.
    assert (destroyFault (snd (LegacyStore.freeStepProcess guid w0)) = destroyFault w0) as ->.
    { unfold LegacyStore.freeStepProcess. by destruct (runningProcesses w0 !! guid). }
    assert (garden (snd (LegacyStore.freeStepProcess guid w0)) = garden w0) as ->.
    { unfold LegacyStore.freeStepProcess. by destruct (runningProcesses w0 !! guid). }
    rewrite H0. by destruct (garden w0 !! guid). }
  rewrite (HD w Hf), Hg. simpl. split; [done|]. split; [apply lookup_delete_eq|].
  rewrite HD; simpl.
  - by rewrite lookup_delete_eq.
  - unfold LegacyStore.freeStepProcess. by destruct (runningProcesses w !! guid).
Qed.

Lemma legacy_signals_only monitored gc evs : forall ls w,
  forallb Observe.isSignal evs = true ->
  forall e rest,
    legacy_outerLoop monitored gc (evs ++ RecvSeqComplete (Some e) :: rest) ls w =
    Some ({| LegacyStore.signalsNil :=
               LegacyStore.signalsNil ls || negb (Nat.eqb (length evs) 0);
             LegacyStore.hasStartedRunningNil := LegacyStore.hasStartedRunningNil ls;
             LegacyStore.result := {| Failed := true; FailureReason := Error e |};
             LegacyStore.stepCancels :=
               if LegacyStore.signalsNil ls || Nat.eqb (length evs) 0
               then LegacyStore.stepCancels ls else S (LegacyStore.stepCancels ls);
             LegacyStore.monitorCancels :=
               if LegacyStore.signalsNil ls || Nat.eqb (length evs) 0 || negb monitored
               then LegacyStore.monitorCancels ls
               else S (LegacyStore.monitorCancels ls) |}, w).
Proof.
  induction evs as [|ev evs IH]; intros ls w Hs e rest; simpl.
  - rewrite !orb_true_r, orb_false_r. done.
  - destruct ev; try done. simpl in Hs. simpl.
    destruct (LegacyStore.signalsNil ls) eqn:Hn.
    + rewrite IH by done. rewrite Hn. done.
    + rewrite IH by done. simpl. destruct monitored; done.
Qed.

(** X20.  In the earlier store the supervisor does not tell a stop from a
    failure: stop signals followed by a step tree that ends with an error
    are recorded as failed, with the text of that error.  On the first
    signal it cancels the step tree once and, when there is a monitor, the
    monitor step once more on its own. *)
Theorem legacy_stop_is_recorded_as_failure monitored gc signals e rest w :
  forallb Observe.isSignal signals = true ->
  exists ls,
    legacy_supervise monitored gc (signals ++ RecvSeqComplete (Some e) :: rest) w =
      Some (ls, snd (LegacyStore.transitionToComplete ContainerStateProperty
                       ContainerResultProperty stateString jsonMarshal Garden2Executor gc
                       {| Failed := true; FailureReason := Error e |} w)) /\
    LegacyStore.result ls = {| Failed := true; FailureReason := Error e |} /\
    LegacyStore.stepCancels ls = (if Nat.eqb (length signals) 0 then 0 else 1) /\
    LegacyStore.monitorCancels ls =
      (if Nat.eqb (length signals) 0 || negb monitored then 0 else 1).
Proof.
  intros Hs. unfold LegacyStore.supervise.
  rewrite legacy_signals_only by done. simpl.
  eexists. split; [reflexivity|]. simpl. by repeat split.
Qed.

End LegacyFacts.

(** ** The initializer *)

Module InitializerFacts.

Import GardenStore Initializer.


Lemma waitCase_onePing ev v :
  onePing v ->
  match waitCase ev v with
  | WaitContinue v1 => onePing v1
  | WaitReturn _ _ | WaitNotReady => True
  end.
Proof.
  unfold onePing.
  destruct v as [[] [|n] ps pr hr sd]; destruct ev as [|[|e|e]|since];
    simpl; intros Hv; try done; lia.
Qed.

Lemma waitLoop_onePing evs : forall v,
  onePing v ->
  match waitLoop evs v with
  | Steps.Running v1 => onePing v1
  | Steps.Returned _ _ => True
  end.
Proof.
  induction evs as [|ev evs IH]; intros v Hv; simpl; [done|].
  pose proof (waitCase_onePing ev v Hv) as H.
  destruct (waitCase ev v); [by apply IH|done|by apply IH].
Qed.

Lemma waitLoop_recoverable evs : forall v,
  forallb isRecoverableOnly evs = true ->
  exists v1, waitLoop evs v = Steps.Running v1.
Proof.
  induction evs as [|ev evs IH]; intros v; simpl; [by eexists|].
  intros [Hev Hevs]%andb_prop.
  destruct ev as [|[|e|e]|since]; simpl in *; try done;
    destruct (pingArmed v), (inFlight v); simpl; by apply IH.
Qed.

Lemma waitLoop_returned evs : forall v err v1,
  waitLoop evs v = Steps.Returned err v1 ->
  match err with
  | None => In (PingResponse PingNil) evs /\ last (stalledDurationSent v1) = Some 0%Z
  | Some e => In (PingResponse (PingUnrecoverable e)) evs
  end.
Proof.
  induction evs as [|ev evs IH]; intros v err v1; simpl; [done|].
  destruct (waitCase ev v) as [v2|err2 v2|] eqn:Hc.
  - intros H. apply IH in H. destruct err; [by right|]. destruct H. split; [by right|done].
  - intros [= <- <-].
    destruct ev as [|[|e|e]|since]; simpl in Hc; repeat case_match; simplify_eq; simpl.
    + split; [by left|]. by rewrite last_snoc.
    + by left.
  - intros H. apply IH in H. destruct err; [by right|]. destruct H. split; [by right|done].
Qed.

(** X22.  [waitForGarden] returns only on a decisive ping: nil after a ping
    that succeeded, the last metric it sent then being 0, or the error of a
    ping that failed unrecoverably.  Over recoverable failures, timer ticks
    and heartbeats alone it keeps waiting; and while it waits there is never
    more than one ping in flight, a new one being started only after the
    previous result has been received. *)
Theorem waitForGarden_returns_on_a_decisive_ping evs :
  (forall err v,
      waitForGarden evs = Steps.Returned err v ->
      match err with
      | None => In (PingResponse PingNil) evs /\ last (stalledDurationSent v) = Some 0%Z
      | Some e => In (PingResponse (PingUnrecoverable e)) evs
      end) /\
  (forallb isRecoverableOnly evs = true -> exists v, waitForGarden evs = Steps.Running v) /\
  (forall v, waitForGarden evs = Steps.Running v ->
             inFlight v <= 1 /\ (pingArmed v = true -> inFlight v = 0)).
Proof.
  unfold waitForGarden. split; [|split].
  - intros err v. apply waitLoop_returned.
  - apply waitLoop_recoverable.
  - intros v Hv. pose proof (waitLoop_onePing evs waitInit eq_refl) as H.
    rewrite Hv in H. unfold onePing in H. destruct (pingArmed v); split; intros; lia || done.
Qed.

End InitializerFacts.

(** ** The containers destroyed at startup *)

Section StartupFacts.

Import GardenStore Initializer Steps.

Variable ContainerOwnerProperty : string.

Local Abbreviation destroyContainers := (destroyContainers ContainerOwnerProperty).

Lemma destroyAll_ok l : forall w,
  NoDup l ->
  (forall h, h ∈ l -> is_Some (garden w !! h) /\ destroyFault w !! h = None) ->
  exists w',
    destroyAll l w = Returns w' /\
    (forall k, garden w' !! k = if decide (k ∈ l) then None else garden w !! k) /\
    emitted w' = emitted w /\ sameStore w w'.
Proof.
  induction l as [|h l IH]; intros w Hnd Hall; simpl.
  - exists w. by repeat split.
  - apply NoDup_cons in Hnd as [Hh Hnd].
    destruct (Hall h) as [[props Hg] Hf]; [by left|].
    unfold gardenClient_Destroy. rewrite Hf, Hg.
    destruct (IH (with_garden (delete h (garden w)) w) Hnd) as (w' & Hd & Hk & He & Hs).
    { intros h' Hin. simpl. rewrite lookup_delete_ne by (intros ->; done).
      apply Hall. by right. }
    exists w'. split; [done|]. split; [|done].
    intros k. rewrite Hk. simpl.
    destruct (decide (k = h)) as [->|Hne].
    + rewrite decide_False by done. rewrite decide_True by (by left).
      apply lookup_delete_eq.
    + destruct (decide (k ∈ l)).
      * by rewrite decide_True by (by right).
      * rewrite decide_False by (intros [?|?]%elem_of_cons; done).
        by apply lookup_delete_ne.
Qed.

Lemma destroyAll_fault l : forall w h,
  NoDup l ->
  (forall h, h ∈ l -> is_Some (garden w !! h)) ->
  h ∈ l -> is_Some (destroyFault w !! h) ->
  exists h' e,
    h' ∈ l /\ destroyFault w !! h' = Some e /\
    destroyAll l w = Fatal "executor-failed-to-destroy-container" e.
Proof.
  induction l as [|h0 l IH]; intros w h Hnd Hall Hin Hf; simpl.
  - by apply elem_of_nil in Hin.
  - apply NoDup_cons in Hnd as [Hh Hnd].
    unfold gardenClient_Destroy.
    destruct (destroyFault w !! h0) as [e|] eqn:Hf0.
    { exists h0, e. split; [by left|]. by split. }
    destruct (Hall h0) as [props Hg]; [by left|]. rewrite Hg.
    apply elem_of_cons in Hin as [->|Hin]; [rewrite Hf0 in Hf; by destruct Hf|].
    destruct (IH (with_garden (delete h0 (garden w)) w) h) as (h' & e & Hin' & He & Hd);
      try done.
    { intros h1 Hin1. simpl. rewrite lookup_delete_ne by (intros ->; done).
      apply Hall. by right. }
    exists h', e. split; [by right|]. by split.
Qed.

Lemma owned_handles owner w h :
  h ∈ (map_to_list (filter (fun kv => {[ContainerOwnerProperty := owner]} ⊆ snd kv)
                      (garden w))).*1 <->
  exists props, garden w !! h = Some props /\ props !! ContainerOwnerProperty = Some owner.
Proof.
  rewrite list_elem_of_fmap. split.
  - intros ([h' props] & -> & Hin). simpl.
    apply elem_of_map_to_list, map_lookup_filter_Some in Hin as [Hg Hsub].
    exists props. split; [done|]. by apply map_singleton_subseteq_l.
  - intros (props & Hg & Ho). exists (h, props). split; [done|].
    apply elem_of_map_to_list, map_lookup_filter_Some. split; [done|].
    by apply map_singleton_subseteq_l.
Qed.

(** X23.  At startup [destroyContainers] destroys exactly the containers of
    the runtime that carry the owner property with the owner's name: when the
    runtime lists and destroys without failure, it returns with those
    containers gone and every other container, the events and the store
    untouched.  When the listing fails, or one of those containers cannot be
    destroyed, it does not return: the fatal log panics, with the error of
    the listing or of the runtime's refusal to destroy one of them. *)
Theorem destroyContainers_destroys_the_owned owner w :
  (forall e, destroyContainers (Some e) owner w = Fatal "executor-failed-to-get-containers" e) /\
  ((forall h props,
       garden w !! h = Some props -> props !! ContainerOwnerProperty = Some owner ->
       destroyFault w !! h = None) ->
   exists w',
     destroyContainers None owner w = Returns w' /\
     (forall h,
         garden w' !! h =
         match garden w !! h with
         | Some props =>
             if decide (props !! ContainerOwnerProperty = Some owner) then None
             else Some props
         | None => None
         end) /\
     emitted w' = emitted w /\ sameStore w w') /\
  (forall h props,
      garden w !! h = Some props -> props !! ContainerOwnerProperty = Some owner ->
      is_Some (destroyFault w !! h) ->
      exists h' props' e,
        garden w !! h' = Some props' /\ props' !! ContainerOwnerProperty = Some owner /\
        destroyFault w !! h' = Some e /\
        destroyContainers None owner w = Fatal "executor-failed-to-destroy-container" e).
Proof.
  unfold Initializer.destroyContainers, Containers, gardenClient_Containers.
  split; [done|]. split.
  - intros Hok.
    destruct (destroyAll_ok
                (map_to_list (filter (fun kv => {[ContainerOwnerProperty := owner]} ⊆ snd kv)
                                (garden w))).*1 w) as (w' & Hd & Hk & He & Hs).
    { apply NoDup_fst_map_to_list. }
    { intros h (props & Hg & Ho)%owned_handles. split; [by eexists|by eapply Hok]. }
    exists w'. split; [done|]. split; [|done].
    intros h. rewrite Hk.
    destruct (garden w !! h) as [props|] eqn:Hg.
    + destruct (decide (props !! ContainerOwnerProperty = Some owner)) as [Ho|Ho].
      * rewrite decide_True; [done|]. apply owned_handles. by exists props.
      * rewrite decide_False; [done|].
        intros (props' & Hg' & Ho')%owned_handles. congruence.
    + by destruct (decide _).
  - intros h props Hg Ho Hf.
    destruct (destroyAll_fault
                (map_to_list (filter (fun kv => {[ContainerOwnerProperty := owner]} ⊆ snd kv)
                                (garden w))).*1 w h) as (h' & e & Hin & He & Hd).
    + apply NoDup_fst_map_to_list.
    + intros h1 (props1 & Hg1 & _)%owned_handles. by eexists.
    + apply owned_handles. by exists props.
    + done.
    + apply owned_handles in Hin as (props' & Hg' & Ho').
      exists h', props', e. by repeat split.
Qed.

End StartupFacts.

(** ** The transformer *)

Section TransformerFacts.

Import Steps Transformer.

Variable ParseRequestURI : string -> error + string.

Local Abbreviation convertAction := (convertAction ParseRequestURI).
Local Abbreviation StepsFor := (StepsFor ParseRequestURI).
Local Abbreviation hooksParse := (hooksParse ParseRequestURI).
Local Abbreviation converts := (converts ParseRequestURI).

(** Induction over an action tree, the children of a parallel action
    included. *)
Lemma ExecutorAction_tree_ind (P : ExecutorAction -> Prop) :
  (forall model env, P (RunAction model env)) ->
  (forall model, P (DownloadAction model)) ->
  (forall model, P (UploadAction model)) ->
  (forall model, P (FetchResultAction model)) ->
  (forall a s1 s2 s3, P a -> P (EmitProgressAction a s1 s2 s3)) ->
  (forall a, P a -> P (TryAction a)) ->
  (forall a t1 t2 h1 h2, P a -> P (MonitorAction a t1 t2 h1 h2)) ->
  (forall l, Forall P l -> P (ParallelAction l)) ->
  (forall t, P (UnknownAction t)) ->
  forall a, P a.
Proof.
  intros HRun HDown HUp HFetch HEmit HTry HMon HPar HUnk.
  fix IH 1. intros [model env|model|model|model|a s1 s2 s3|a|a t1 t2 h1 h2|l|t].
  - apply HRun.
  - apply HDown.
  - apply HUp.
  - apply HFetch.
  - apply HEmit, IH.
  - apply HTry, IH.
  - apply HMon, IH.
  - apply HPar.
    induction l as [|a l IHl]; constructor; [apply IH|apply IHl].
  - apply HUnk.
Qed.

Lemma hookRequest_parses h :
  (hookParses ParseRequestURI h = true -> exists r, hookRequest ParseRequestURI h = inr r) /\
  (hookParses ParseRequestURI h = false -> exists e, hookRequest ParseRequestURI h = inl e).
Proof.
  unfold hookParses. destruct (hookRequest ParseRequestURI h); split; try done; by eexists.
Qed.

Lemma convertAction_converts globalEnv a : converts globalEnv a.
Proof.
  induction a as [model env|model|model|model|a s1 s2 s3 IH|a IH|a t1 t2 h1 h2 IH|l IH|t]
    using ExecutorAction_tree_ind; unfold Transformer.converts in *; simpl; try done;
    try (intros _; by eexists).
  - intros Hk. specialize (IH Hk).
    destruct (hooksParse a); destruct IH as [x ->]; by eexists.
  - intros Hk. specialize (IH Hk).
    destruct (hooksParse a); destruct IH as [x ->]; by eexists.
  - intros Hk. specialize (IH Hk).
    destruct (hookRequest_parses h1) as [Hp1 Hn1], (hookRequest_parses h2) as [Hp2 Hn2].
    destruct (hookParses ParseRequestURI h1); simpl.
    + destruct (Hp1 eq_refl) as [r1 ->].
      destruct (hookParses ParseRequestURI h2); simpl.
      * destruct (Hp2 eq_refl) as [r2 ->].
        destruct (hooksParse a); destruct IH as [x ->]; by eexists.
      * destruct (Hn2 eq_refl) as [e ->]. by eexists.
    + destruct (Hn1 eq_refl) as [e ->]. by eexists.
  - intros Hk.
    set (convertEach := fix convertEach (l : list ExecutorAction) : Go (error + list Step) :=
           match l with
           | [] => Normal (inr [])
           | a :: rest =>
               match convertAction globalEnv a with
               | Normal (inr step) =>
                   match convertEach rest with
                   | Normal (inr steps) => Normal (inr (step :: steps))
                   | other => other
                   end
               | Normal (inl err) => Normal (inl err)
               | Panic msg => Panic msg
               end
           end).
    assert (Heach : if forallb hooksParse l
                    then exists steps, convertEach l = Normal (inr steps)
                    else exists err, convertEach l = Normal (inl err)).
    { clear -IH Hk. induction IH as [|a l Ha _ IHl]; simpl; [by eexists|].
      simpl in Hk. apply andb_prop in Hk as [Hka Hkl].
      specialize (Ha Hka). specialize (IHl Hkl).
      destruct (hooksParse a); simpl.
      - destruct Ha as [step ->].
        destruct (forallb hooksParse l); destruct IHl as [x ->]; by eexists.
      - destruct Ha as [err ->]. by eexists. }
    destruct (forallb hooksParse l); destruct Heach as [x ->]; by eexists.
Qed.

(** X24.  The conversion of an action tree that holds only actions the
    transformer knows never panics: it gives a step when every hook that has
    a URL has one that parses, and an error otherwise.  An action of a type
    it does not know makes it panic, provided it gets that far, and the text
    of the panic names the wrapper's type, whatever the type of the action;
    put after an action whose hooks do not parse, it is not reached and the
    conversion returns the error. *)
Theorem convertAction_fails_only_on_hooks globalEnv a :
  known a = true ->
  (hooksParse a = true <-> exists step, convertAction globalEnv a = Normal (inr step)) /\
  (hooksParse a = false <-> exists err, convertAction globalEnv a = Normal (inl err)) /\
  (forall typeName,
      if hooksParse a
      then convertAction globalEnv (ParallelAction [a; UnknownAction typeName])
           = Panic "unknown action: models.ExecutorAction"
      else exists err,
          convertAction globalEnv (ParallelAction [a; UnknownAction typeName])
          = Normal (inl err)).
Proof.
  intros Hk. pose proof (convertAction_converts globalEnv a Hk) as H.
  destruct (hooksParse a); destruct H as [x Hx]; simpl; rewrite Hx;
    repeat split; try done; try (by eexists); try (by intros [? ?]).
Qed.

Lemma flat_map_map {A B C} (f : B -> C) (g : A -> list B) (l : list A) :
  map f (flat_map g l) = flat_map (fun a => map f (g a)) l.
Proof. induction l as [|a l IH]; simpl; [done|]. by rewrite map_app, IH. Qed.

(** X25.  Every run step of a converted tree runs with the global
    environment followed by the environment of its own action: the
    environments of the run steps are those of the run actions, in the same
    order, each with the global environment put in front. *)
Theorem convertAction_puts_the_global_env_first globalEnv a : forall step,
  convertAction globalEnv a = Normal (inr step) ->
  stepEnvs step = map (app globalEnv) (actionEnvs a).
Proof.
  induction a as [model env|model|model|model|a s1 s2 s3 IH|a IH|a t1 t2 h1 h2 IH|l IH|t]
    using ExecutorAction_tree_ind; intros step; simpl;
    try (by intros [= <-]).
  - destruct (convertAction globalEnv a) as [[e|sub]|msg]; try done.
    intros [= <-]. simpl. by apply (IH sub).
  - destruct (convertAction globalEnv a) as [[e|sub]|msg]; try done.
    intros [= <-]. simpl. by apply (IH sub).
  - destruct (hookRequest ParseRequestURI h1); try done.
    destruct (hookRequest ParseRequestURI h2); try done.
    destruct (convertAction globalEnv a) as [[e|sub]|msg]; try done.
    intros [= <-]. simpl. by apply (IH sub).
  - set (convertEach := fix convertEach (l : list ExecutorAction) : Go (error + list Step) :=
           match l with
           | [] => Normal (inr [])
           | a :: rest =>
               match convertAction globalEnv a with
               | Normal (inr step) =>
                   match convertEach rest with
                   | Normal (inr steps) => Normal (inr (step :: steps))
                   | other => other
                   end
               | Normal (inl err) => Normal (inl err)
               | Panic msg => Panic msg
               end
           end).
    assert (Heach : forall steps, convertEach l = Normal (inr steps) ->
                    flat_map stepEnvs steps = flat_map (fun a => map (app globalEnv) (actionEnvs a)) l).
    { clear -IH. induction IH as [|a l Ha _ IHl]; intros steps; simpl.
      - by intros [= <-].
      - destruct (convertAction globalEnv a) as [[e|sub]|msg]; try done.
        destruct (convertEach l) as [[e|subs]|msg]; try done.
        intros [= <-]. simpl. by rewrite (Ha sub), (IHl subs). }
    destruct (convertEach l) as [[e|steps]|msg]; try done. intros [= <-]. simpl.
    rewrite flat_map_map. by apply Heach.
Qed.

(** X26.  [StepsFor] converts the actions in order: when it succeeds there
    is one step per action, each the conversion of the action at its place;
    and when the actions before one whose conversion fails all convert, it
    returns that failure, whatever comes after. *)
Theorem StepsFor_converts_in_order globalEnv :
  (forall actions steps,
      StepsFor globalEnv actions = Normal (inr steps) ->
      Forall2 (fun a step => convertAction globalEnv a = Normal (inr step)) actions steps) /\
  (forall before a after err,
      Forall (fun b => exists step, convertAction globalEnv b = Normal (inr step)) before ->
      convertAction globalEnv a = Normal (inl err) ->
      StepsFor globalEnv (before ++ a :: after) = Normal (inl err)).
Proof.
  split.
  - induction actions as [|a actions IH]; intros steps; simpl.
    + intros [= <-]. constructor.
    + destruct (convertAction globalEnv a) as [[e|step]|msg] eqn:Ha; try done.
      destruct (Transformer.StepsFor ParseRequestURI globalEnv actions)
        as [[e|subSteps]|msg]; try done.
      intros [= <-]. constructor; [done|by apply IH].
  - intros before a after err Hb Ha.
    induction Hb as [|b before [step Hs] _ IH]; simpl; [by rewrite Ha|].
    by rewrite Hs, IH.
Qed.

End TransformerFacts.

(** ** The further properties on examples *)

Module MoreExamples.

Import GardenStore.
Import Fixture(w0, started, created, disaster, monitor).
Import Samples.

Lemma Run_lookup_failure_witness :
  Fixture.Run (Fixture.container "b" StateCreated) w0 = (Some ErrContainerNotFound, w0) /\
  Fixture.Run created unreachable = (Some (ErrorString "connection refused"), unreachable).
Proof.
  destruct (Run_lookup_failure Fixture.ContainerStateProperty Fixture.ContainerResultProperty
              Fixture.stateString Fixture.Error Fixture.jsonMarshal Fixture.Garden2Executor
              1000000000 500000000 (Fixture.container "b" StateCreated) w0) as [H1 _].
  destruct (Run_lookup_failure Fixture.ContainerStateProperty Fixture.ContainerResultProperty
              Fixture.stateString Fixture.Error Fixture.jsonMarshal Fixture.Garden2Executor
              1000000000 500000000 created unreachable) as [_ H2].
  split.
  - apply H1; vm_compute; reflexivity.
  - apply H2; [vm_compute; reflexivity|discriminate].
Defined.

Lemma Destroy_idempotent_witness :
  fst (Destroy "a" started) = None /\
  garden (snd (Destroy "a" started)) !! "a" = None /\
  Destroy "a" (snd (Destroy "a" started)) = (None, snd (Destroy "a" started)).
Proof. apply (Destroy_idempotent "a" started). vm_compute; reflexivity. Defined.

Lemma Destroy_failure_witness :
  fst (Destroy "a" busy) = Some (ErrorString "container is busy") /\
  garden (snd (Destroy "a" busy)) = garden busy /\
  runningProcesses (snd (Destroy "a" busy)) !! "a" = None.
Proof.
  destruct (Destroy_failure_still_frees_the_process
              Fixture.ContainerStateProperty Fixture.ContainerResultProperty
              Fixture.stateString Fixture.Error Fixture.jsonMarshal Fixture.Garden2Executor
              "a" busy (ErrorString "container is busy")) as (H1 & H2 & H3 & _).
  - vm_compute; reflexivity.
  - discriminate.
  - by repeat split.
Defined.

Lemma events_follow_property_writes_witness :
  exists json props c,
    Fixture.jsonMarshal zeroRunResult = inr json /\ garden w0 !! "a" = Some props /\
    garden (snd (transitionToComplete Fixture.ContainerStateProperty
                   Fixture.ContainerResultProperty Fixture.stateString Fixture.jsonMarshal
                   Fixture.Garden2Executor "a" zeroRunResult w0)) !! "a" =
      Some (<[Fixture.ContainerStateProperty := Fixture.stateString StateCompleted]>
              (<[Fixture.ContainerResultProperty := json]> props)) /\
    Fixture.Garden2Executor "a"
      (<[Fixture.ContainerStateProperty := Fixture.stateString StateCompleted]>
         (<[Fixture.ContainerResultProperty := json]> props)) = inr c /\
    emitted (snd (transitionToComplete Fixture.ContainerStateProperty
                    Fixture.ContainerResultProperty Fixture.stateString Fixture.jsonMarshal
                    Fixture.Garden2Executor "a" zeroRunResult w0)) =
      emitted w0 ++ [ContainerCompleteEvent c].
Proof.
  apply (proj1 (events_follow_property_writes
                  Fixture.ContainerStateProperty Fixture.ContainerResultProperty
                  Fixture.stateString Fixture.jsonMarshal Fixture.Garden2Executor
                  "a" zeroRunResult w0)).
  vm_compute; reflexivity.
Defined.

Lemma supervisor_cancels_once_witness :
  exists running complete,
    emitted stopped = emitted (snd (freeStepProcess "a" started)) ++ running ++ complete /\
    Observe.atMostRunning running /\ Observe.atMostComplete complete.
Proof.
  destruct (supervisor_cancels_once_and_orders_events
              Fixture.ContainerStateProperty Fixture.ContainerResultProperty
              Fixture.stateString Fixture.Error Fixture.jsonMarshal Fixture.Garden2Executor
              "a" stoppedSchedule (snd (freeStepProcess "a" started))) as (_ & _ & H).
  destruct (H {| signalsNil := true; hasStartedRunningNil := false; toldToStop := true;
                 result := zeroRunResult; cancelCalls := 1 |}
              (with_procs (procs (snd (freeStepProcess "a" started))) stopped))
    as (running & complete & He & Hr & Hc).
  - vm_compute; reflexivity.
  - exists running, complete. by repeat split.
Defined.

Lemma supervisor_exits_witness :
  (exists ls w', Fixture.supervise "a" [RecvSignal; RecvSeqComplete None] w0 = Some (ls, w')) /\
  Fixture.supervise "a" [RecvSignal; RecvSignal] w0 = None.
Proof.
  destruct (supervisor_exits_on_completion_only
              Fixture.ContainerStateProperty Fixture.ContainerResultProperty
              Fixture.stateString Fixture.Error Fixture.jsonMarshal Fixture.Garden2Executor
              "a" w0) as [H1 H2].
  split.
  - apply H1. reflexivity.
  - apply H2. reflexivity.
Defined.

Lemma supervisor_result_classification_witness :
  exists ls2,
    Fixture.supervise "a" ([] ++ RecvSeqComplete (Some disaster) :: []) w0 =
      Some (ls2, snd (transitionToComplete Fixture.ContainerStateProperty
                        Fixture.ContainerResultProperty Fixture.stateString
                        Fixture.jsonMarshal Fixture.Garden2Executor "a"
                        {| Failed := true; FailureReason := "oh no!" |} w0)) /\
    result ls2 = {| Failed := true; FailureReason := "oh no!" |}.
Proof.
  destruct (supervisor_result_classification
              Fixture.ContainerStateProperty Fixture.ContainerResultProperty
              Fixture.stateString Fixture.Error Fixture.jsonMarshal Fixture.Garden2Executor
              "a" [] w0 initialLoopState w0 eq_refl) as (_ & H & _).
  apply (H disaster []). reflexivity.
Defined.

Lemma Stop_returns_after_supervisor_exit_witness :
  exists pid p,
    runningProcesses started !! "a" = Some pid /\
    procs stopped !! pid = Some p /\
    p_exited p = true /\ p_signalled p = true /\
    runningProcesses stopped !! "a" = None.
Proof.
  apply (Stop_returns_after_supervisor_exit
           Fixture.ContainerStateProperty Fixture.ContainerResultProperty
           Fixture.stateString Fixture.Error Fixture.jsonMarshal Fixture.Garden2Executor
           "a" stoppedSchedule started stopped).
  vm_compute; reflexivity.
Defined.

Lemma Run_registers_a_supervisor_witness :
  fst (Fixture.Run created w0) = None /\
  runningProcesses (snd (Fixture.Run created w0)) !! "a" = Some 0.
Proof.
  destruct (Run_registers_a_supervisor
              Fixture.ContainerStateProperty Fixture.ContainerResultProperty
              Fixture.stateString Fixture.Error Fixture.jsonMarshal Fixture.Garden2Executor
              1000000000 500000000 created w0 "a") as (H1 & _ & _ & H2 & _).
  - vm_compute; reflexivity.
  - reflexivity.
  - split; [exact H1|exact H2].
Defined.

Lemma legacy_Destroy_twice_fails_witness :
  fst (LegacyStore.Destroy "a" w0) = None /\
  fst (LegacyStore.Destroy "a" (snd (LegacyStore.Destroy "a" w0)))
    = Some (GardenContainerNotFoundError "a").
Proof.
  destruct (legacy_Destroy_twice_fails "a" w0 ∅) as (H1 & _ & H2).
  - vm_compute; reflexivity.
  - vm_compute; reflexivity.
  - by split.
Defined.

Lemma legacy_stop_is_recorded_as_failure_witness :
  exists ls,
    LegacyStore.supervise Fixture.ContainerStateProperty Fixture.ContainerResultProperty
      Fixture.stateString Fixture.Error Fixture.jsonMarshal Fixture.Garden2Executor
      true "a" ([RecvSignal] ++ RecvSeqComplete (Some ErrCancelled) :: []) w0
    = Some (ls, snd (LegacyStore.transitionToComplete Fixture.ContainerStateProperty
                       Fixture.ContainerResultProperty Fixture.stateString
                       Fixture.jsonMarshal Fixture.Garden2Executor "a"
                       {| Failed := true; FailureReason := "steps cancelled" |} w0)) /\
    LegacyStore.result ls = {| Failed := true; FailureReason := "steps cancelled" |} /\
    LegacyStore.stepCancels ls = 1 /\ LegacyStore.monitorCancels ls = 1.
Proof.
  apply (legacy_stop_is_recorded_as_failure
           Fixture.ContainerStateProperty Fixture.ContainerResultProperty
           Fixture.stateString Fixture.Error Fixture.jsonMarshal Fixture.Garden2Executor
           true "a" [RecvSignal] ErrCancelled [] w0).
  reflexivity.
Defined.

Import Steps.

Lemma monitor_rearms_witness :
  resets (vars (monitorStep_Perform monitor 0
                  (map failing [(30000000, disaster); (60000000, disaster)]%Z
                     ++ map (fun t => TimerC t None) [90000000; 150000000]%Z)))
  = [30000000; 30000000; 60000000; 60000000]%Z.
Proof.
  rewrite (MonitorMore.monitor_rearms_with_the_current_interval monitor 0%Z
             [(30000000, disaster); (60000000, disaster)]%Z [90000000; 150000000]%Z).
  - reflexivity.
  - simpl; lia.
  - simpl; lia.
  - right. repeat constructor; simpl; lia.
Defined.

Lemma monitor_without_start_timeout_witness :
  exists v,
    monitorStep_Perform monitorWithoutTimeout 0
      (map failing [(30000000, disaster); (900000000000, disaster)]%Z) = Running v /\
    healthy v = false /\ sent v = 0 /\ stderr v = [].
Proof.
  apply (MonitorMore.monitor_without_start_timeout_never_times_out monitorWithoutTimeout 0%Z
           [(30000000, disaster); (900000000000, disaster)]%Z); simpl; lia.
Defined.


Lemma monitor_cancellation_witness :
  monitorStep_Perform monitor 0 ([TimerC 30000000 None] ++ CancelledC :: [])
  = Returned (Some ErrCancelled)
      {| healthy := true; interval := 60000000; startBy := None; sent := 1;
         stderr := []; resets := [60000000]%Z |}.
Proof.
  destruct (MonitorMore.monitor_cancellation monitor 0%Z [TimerC 30000000 None])
    as (_ & H & _).
  apply H. vm_compute; reflexivity.
Defined.


Lemma download_succeeds_witness :
  returned {| returned := None;
              emittedLines := ["Downloading droplet..." +:+ nl;
                               "Downloaded droplet (1K)" +:+ nl];
              fileClosed := false |} = None.
Proof.
  apply (DownloadMore.download_succeeds_exactly_when_all_parts_do ByteSize download
           downloadRun).
  - vm_compute; reflexivity.
  - split; [reflexivity|]. split; [discriminate|].
    exists {| isCachedFile := true; statResult := inr 1024%Z |}.
    split; [reflexivity|]. split; [by exists 1024%Z|reflexivity].
Defined.

Lemma download_reports_witness :
  (returned {| returned := Some CancelError;
               emittedLines := ["Downloading droplet..." +:+ nl]; fileClosed := false |}
   = Some CancelError /\
   ~ In ("Failed to download droplet" +:+ nl) ["Downloading droplet..." +:+ nl]) /\
  (returned {| returned := Some (EmittableError (Some disaster) "Downloading failed" "");
               emittedLines := ["Downloading droplet..." +:+ nl;
                                "Failed to download droplet" +:+ nl];
               fileClosed := false |}
   = Some (EmittableError (Some disaster) "Downloading failed" "") /\
   In ("Failed to download droplet" +:+ nl)
      ["Downloading droplet..." +:+ nl; "Failed to download droplet" +:+ nl]).
Proof.
  split.
  - pose proof (DownloadMore.download_reports ByteSize
                  {| model := model download; cancelChan := ChanClosed |}
                  {| limiterHasRoom := true; selectTakesCancel := false;
                     downloadResult := inl disaster; cancelledDuringDownload := false;
                     streamInResult := None; cancelledDuringStreamIn := false |}
                  {| returned := Some CancelError;
                     emittedLines := ["Downloading droplet..." +:+ nl];
                     fileClosed := false |} eq_refl) as (_ & Hd & _ & Hl).
    split.
    + apply (proj1 (Hd disaster eq_refl)). left. reflexivity.
    + intros Hin. destruct (Hl Hin) as [Hopen _]. discriminate Hopen.
  - pose proof (DownloadMore.download_reports ByteSize download
                  {| limiterHasRoom := true; selectTakesCancel := false;
                     downloadResult := inl disaster; cancelledDuringDownload := false;
                     streamInResult := None; cancelledDuringStreamIn := false |}
                  {| returned := Some (EmittableError (Some disaster) "Downloading failed" "");
                     emittedLines := ["Downloading droplet..." +:+ nl;
                                      "Failed to download droplet" +:+ nl];
                     fileClosed := false |} eq_refl) as (_ & Hd & _ & _).
    destruct (proj2 (Hd disaster eq_refl) eq_refl eq_refl) as [Hr Hin].
    split; [exact Hr|]. apply Hin. discriminate.
Defined.

Lemma upload_releases_the_semaphore_witness :
  exists before,
    Upload.deferredCalls (Upload.UploadStep_Perform Samples.ParseRequestURI ByteSize
                            upload uploadRun) = before ++ [Upload.Release] /\
    ~ In Upload.Release before.
Proof.
  apply (proj1 (proj2 (UploadFacts.upload_releases_the_semaphore
                         Samples.ParseRequestURI ByteSize upload uploadRun))).
  reflexivity.
Defined.


Import Initializer.


Lemma waitForGarden_witness :
  (exists v, waitForGarden retries = Running v) /\
  (In (PingResponse PingNil) (retries ++ [PingResponse PingNil]) /\
   last (stalledDurationSent
           {| pingArmed := false; inFlight := 0; pingsStarted := 2;
              pingResets := [PingGardenInterval];
              heartbeatResets := [StalledMetricHeartbeatInterval];
              stalledDurationSent := [5000000000; 0]%Z |}) = Some 0%Z).
Proof.
  split.
  - apply (proj1 (proj2 (InitializerFacts.waitForGarden_returns_on_a_decisive_ping retries))).
    reflexivity.
  - apply (proj1 (InitializerFacts.waitForGarden_returns_on_a_decisive_ping
                    (retries ++ [PingResponse PingNil])) None).
    vm_compute; reflexivity.
Defined.

Lemma destroyContainers_witness :
  exists w',
    destroyContainers Samples.ContainerOwnerProperty None "executor" shared = Returns w' /\
    (forall h,
        garden w' !! h =
        match garden shared !! h with
        | Some props =>
            if decide (props !! Samples.ContainerOwnerProperty = Some "executor") then None
            else Some props
        | None => None
        end) /\
    emitted w' = emitted shared /\ sameStore shared w'.
Proof.
  apply (proj1 (proj2 (destroyContainers_destroys_the_owned
                         Samples.ContainerOwnerProperty "executor" shared))).
  intros h props Hg Ho. reflexivity.
Defined.

Import Transformer.

Lemma convertAction_fails_only_on_hooks_witness :
  (exists step, convertAction parseURL globalEnv monitored = Normal (inr step)) /\
  (exists err, convertAction parseURL globalEnv badHook = Normal (inl err)) /\
  convertAction parseURL globalEnv (ParallelAction [monitored; UnknownAction "models.Mystery"])
    = Panic "unknown action: models.ExecutorAction" /\
  (exists err,
      convertAction parseURL globalEnv (ParallelAction [badHook; UnknownAction "models.Mystery"])
      = Normal (inl err)).
Proof.
  split; [|split; [|split]].
  - apply (proj1 (convertAction_fails_only_on_hooks parseURL globalEnv monitored eq_refl)).
    reflexivity.
  - apply (proj1 (proj2 (convertAction_fails_only_on_hooks parseURL globalEnv badHook
                           eq_refl))).
    reflexivity.
  - exact (proj2 (proj2 (convertAction_fails_only_on_hooks parseURL globalEnv monitored
                           eq_refl)) "models.Mystery").
  - exact (proj2 (proj2 (convertAction_fails_only_on_hooks parseURL globalEnv badHook
                           eq_refl)) "models.Mystery").
Defined.

Lemma convertAction_global_env_witness :
  stepEnvs (monitor_step (run_step "check" (globalEnv ++ ownEnv)) 1 1
              (Some {| reqMethod := "PUT"; reqURL := "http://hooks/healthy" |}) None)
  = map (app globalEnv) (actionEnvs monitored).
Proof.
  apply (convertAction_puts_the_global_env_first parseURL globalEnv monitored).
  reflexivity.
Defined.

Lemma StepsFor_witness :
  StepsFor parseURL globalEnv ([monitored] ++ badHook :: [UnknownAction "models.Mystery"])
  = Normal (inl (ErrorString "invalid URI for request")).
Proof.
  apply (proj2 (StepsFor_converts_in_order parseURL globalEnv)).
  - repeat constructor. by eexists.
  - reflexivity.
Defined.

End MoreExamples.
